(** * DatabaseStream: a text stream backed by a database table

    A shallow embedding of [db_stream.py] (the abstract [DatabaseStream])
    and of [sqlite_db_stream.py] (its SQLite subclass), followed by the
    properties of the stream contract.

    Python objects are mutable; every method is therefore a computation
    that takes the object, returns either a value or a raised exception,
    and returns the object as the method left it (an exception does not
    undo the assignments made before it was raised). *)

From Stdlib Require Import ZArith String List Bool.
From stdpp Require Import base option list sorting gmap strings.

Import ListNotations.
Local Open Scope string_scope.
Local Open Scope list_scope.
Local Open Scope Z_scope.

(** ** Exceptions and outcomes *)

Inductive Exception : Type :=
| ValueError (msg : string)
| UnsupportedOperation (msg : string)
| NotImplementedError (msg : string)
| StopIteration
| AttributeError (attr : string)
| OperationalError (msg : string)
| ProgrammingError (msg : string).

Inductive Outcome (A : Type) : Type :=
| Return (a : A)
| Raise (e : Exception).

Arguments Return {A} a.
Arguments Raise {A} e.

(** The spec's error taxonomy.  [ClosedStreamError] is the [ValueError]
    every guarded method raises with this message, and
    [UnsupportedOperationError] is [io.UnsupportedOperation], the
    constructor [UnsupportedOperation]. *)

Definition closed_msg : string := "I/O operation on closed stream.".

Definition ClosedStreamError : Exception := ValueError closed_msg.

Definition is_ClosedStreamError (e : Exception) : bool :=
  match e with
  | ValueError msg => String.eqb msg closed_msg
  | _ => false
  end.

(** ** The object *)

(** What a fetched row exposes: [row['id']] and [row['content']]. *)
Record Row : Type := { id : Z; content : string }.

(** One entry per invocation of an overridable hook, in call order.  The
    history is not a field of the Python object; it records which store
    operations a method performed. *)
Inductive Call : Type :=
| CallConnect
| CallClose
| CallWrite (text : string)
| CallFetch
| CallMark (row_id : Z)
| CallFlush.

(** [B] is whatever the subclass keeps (its connection, and through it
    the store).  [_row_iterator] is [None] while the attribute has never
    been assigned; an iterator over a list is the part of the list not
    yet yielded. *)
Record Stream (B : Type) : Type := mkStream {
  _table_name : string;
  _mode : string;
  _session_ts : Z;
  _hostname : string;
  _pid : Z;
  _closed : bool;
  _row_iterator : option (list Row);
  backend : B;
  calls : list Call
}.

Arguments mkStream {B}.
Arguments _table_name {B} s.
Arguments _mode {B} s.
Arguments _session_ts {B} s.
Arguments _hostname {B} s.
Arguments _pid {B} s.
Arguments _closed {B} s.
Arguments _row_iterator {B} s.
Arguments backend {B} s.
Arguments calls {B} s.

Definition set_closed {B} (v : bool) (s : Stream B) : Stream B :=
  mkStream (_table_name s) (_mode s) (_session_ts s) (_hostname s) (_pid s)
           v (_row_iterator s) (backend s) (calls s).

Definition set_row_iterator {B} (it : list Row) (s : Stream B) : Stream B :=
  mkStream (_table_name s) (_mode s) (_session_ts s) (_hostname s) (_pid s)
           (_closed s) (Some it) (backend s) (calls s).

Definition after_call {B} (c : Call) (b : B) (s : Stream B) : Stream B :=
  mkStream (_table_name s) (_mode s) (_session_ts s) (_hostname s) (_pid s)
           (_closed s) (_row_iterator s) b (calls s ++ [c]).

(** ** Methods as computations on the object *)

Definition M (S A : Type) : Type := S -> Outcome A * S.

Definition ret {S A} (a : A) : M S A := fun s => (Return a, s).

Definition raise {S A} (e : Exception) : M S A := fun s => (Raise e, s).

Definition bind {S A A'} (m : M S A) (k : A -> M S A') : M S A' :=
  fun s =>
    match m s with
    | (Return a, s') => k a s'
    | (Raise e, s') => (Raise e, s')
    end.

Definition get_self {S} : M S S := fun s => (Return s, s).

Definition update {S} (f : S -> S) : M S unit := fun s => (Return tt, f s).

Notation "x <-- m ;; k" := (bind m (fun x => k))
  (at level 62, m at next level, right associativity).
Notation "m ;;; k" := (bind m (fun _ => k))
  (at level 62, right associativity).

(** ** The overridable hooks

    A hook reads the object and acts on what the subclass keeps.  The
    attributes of the base class ([_closed], [_mode], the cursor over the
    snapshot) are out of a hook's reach, as they are in the SQLite
    subclass. *)
Class Hooks (B : Type) : Type := {
  _db_connect : Stream B -> Outcome unit * B;
  _db_close : Stream B -> Outcome unit * B;
  _write_record : Stream B -> string -> Outcome unit * B;
  _fetch_unconsumed : Stream B -> Outcome (list Row) * B;
  _mark_consumed : Stream B -> Z -> Outcome unit * B;
  _flush : Stream B -> Outcome unit * B
}.

(** The defaults of the abstract class. *)
Definition abstract_hooks (B : Type) : Hooks B := {|
  _db_connect := fun s =>
    (Raise (NotImplementedError "Subclass must implement _db_connect()"),
     backend s);
  _db_close := fun s => (Return tt, backend s);
  _write_record := fun s _ =>
    (Raise (NotImplementedError "Subclass must implement _write_record()"),
     backend s);
  _fetch_unconsumed := fun s =>
    (Raise (NotImplementedError "Subclass must implement _fetch_unconsumed()"),
     backend s);
  _mark_consumed := fun s _ =>
    (Raise (NotImplementedError "Subclass must implement _mark_consumed()"),
     backend s);
  _flush := fun s => (Return tt, backend s)
|}.

(** The clock, the host and the process a constructor reads. *)
Record Session : Type := {
  now : Z;
  gethostname : string;
  getpid : Z
}.

(** [len(s)]: the number of characters, a character being what the
    model's strings are made of. *)
Definition len (s : string) : Z := Z.of_nat (String.length s).

(** [content[:limit]] for [limit >= 0]. *)
Definition slice_to (limit : Z) (s : string) : string :=
  String.substring 0 (Z.to_nat limit) s.

Module DatabaseStream.
Section Methods.

Context {B : Type} {H : Hooks B}.

Definition invoke {A} (c : Call) (hook : Stream B -> Outcome A * B)
  : M (Stream B) A :=
  fun self =>
    let '(r, b) := hook self in (r, after_call c b self).

Definition readable (self : Stream B) : bool :=
  String.eqb (_mode self) "r" && negb (_closed self).

Definition writable (self : Stream B) : bool :=
  String.eqb (_mode self) "w" && negb (_closed self).

Definition __init__ (env : Session) (b : B) (table_name mode : string)
  : Outcome unit * Stream B :=
  let self :=
    mkStream table_name mode (now env) (gethostname env) (getpid env)
             false None b [] in
  (invoke CallConnect _db_connect ;;;
   self <-- get_self ;;
   if readable self then
     rows <-- invoke CallFetch _fetch_unconsumed ;;
     update (set_row_iterator rows)
   else ret tt) self.

Definition row_iterator : M (Stream B) (list Row) :=
  self <-- get_self ;;
  match _row_iterator self with
  | Some it => ret it
  | None => raise (AttributeError "_row_iterator")
  end.

Definition check_closed : M (Stream B) unit :=
  self <-- get_self ;;
  if _closed self then raise ClosedStreamError else ret tt.

Definition check_readable : M (Stream B) unit :=
  self <-- get_self ;;
  if negb (readable self)
  then raise (UnsupportedOperation "Stream is not readable.")
  else ret tt.

Definition write (s : string) : M (Stream B) unit :=
  check_closed ;;;
  self <-- get_self ;;
  if negb (writable self)
  then raise (UnsupportedOperation "Stream is not writable.")
  else invoke (CallWrite s) (fun self => _write_record self s).

Definition flush : M (Stream B) unit :=
  check_closed ;;;
  invoke CallFlush _flush.

(** The body of [for row in self._row_iterator] in [read]; [it] is what
    the iterator has left. *)
Fixpoint read_loop (size : Z) (it : list Row)
         (result_chunks : list string) (total_chars : Z)
  : M (Stream B) (list string) :=
  match it with
  | [] => update (set_row_iterator []) ;;; ret result_chunks
  | row :: it' =>
      update (set_row_iterator it') ;;;
      let row_id := id row in
      let content := content row in
      invoke (CallMark row_id) (fun self => _mark_consumed self row_id) ;;;
      let result_chunks := result_chunks ++ [content] in
      let total_chars := total_chars + len content in
      if (0 <=? size) && (size <=? total_chars)
      then ret result_chunks
      else read_loop size it' result_chunks total_chars
  end.

Definition read (size : Z) : M (Stream B) string :=
  check_closed ;;;
  check_readable ;;;
  it <-- row_iterator ;;
  result_chunks <-- read_loop size it [] 0 ;;
  ret (String.concat "" result_chunks).

Definition readline (limit : Z) : M (Stream B) string :=
  check_closed ;;;
  check_readable ;;;
  it <-- row_iterator ;;
  match it with
  | [] => ret ""
  | row :: it' =>
      update (set_row_iterator it') ;;;
      let row_id := id row in
      let content := content row in
      invoke (CallMark row_id) (fun self => _mark_consumed self row_id) ;;;
      if 0 <=? limit then ret (slice_to limit content) else ret content
  end.

Fixpoint readlines_loop (hint : Z) (it : list Row)
         (lines : list string) (total : Z)
  : M (Stream B) (list string) :=
  match it with
  | [] => update (set_row_iterator []) ;;; ret lines
  | row :: it' =>
      update (set_row_iterator it') ;;;
      let row_id := id row in
      let content := content row in
      invoke (CallMark row_id) (fun self => _mark_consumed self row_id) ;;;
      let lines := lines ++ [content] in
      let total := total + len content in
      if (0 <=? hint) && (hint <=? total)
      then ret lines
      else readlines_loop hint it' lines total
  end.

Definition readlines (hint : Z) : M (Stream B) (list string) :=
  check_closed ;;;
  check_readable ;;;
  it <-- row_iterator ;;
  readlines_loop hint it [] 0.

(** [__iter__] returns the object itself. *)
Definition __iter__ : M (Stream B) unit :=
  check_readable.

Definition __next__ : M (Stream B) string :=
  check_closed ;;;
  check_readable ;;;
  it <-- row_iterator ;;
  match it with
  | [] => raise StopIteration
  | row :: it' =>
      update (set_row_iterator it') ;;;
      let row_id := id row in
      let content := content row in
      invoke (CallMark row_id) (fun self => _mark_consumed self row_id) ;;;
      ret content
  end.

Definition close : M (Stream B) unit :=
  self <-- get_self ;;
  if _closed self then ret tt
  else
    update (set_closed true) ;;;
    invoke CallClose _db_close.

Definition __enter__ : M (Stream B) unit :=
  check_closed.

Definition __exit__ : M (Stream B) bool :=
  close ;;; ret false.

End Methods.
End DatabaseStream.

(** ** The SQLite subclass *)

(** A record of the backing table.  The columns are those of the tables
    the test suite creates ([created_at] is never read or written by the
    stream and is left out); a NULL column is [None]. *)
Record TableRow : Type := mkTableRow {
  row_id : Z;
  row_content : string;
  row_session_ts : option Z;
  row_hostname : option string;
  row_pid : option Z
}.

(** A table: its records in storage order, and the largest identifier the
    table has ever held ([id INTEGER PRIMARY KEY AUTOINCREMENT]). *)
Record Table : Type := mkTable {
  rows : list TableRow;
  sqlite_sequence : Z
}.

(** What the subclass keeps: the path, the database file behind it (its
    tables by name), and whether the connection and its cursor are open.
    Every statement the subclass executes is committed at once, so the
    file is kept in its committed state.  Opening the file is taken to
    succeed; a table that is not there makes a statement fail. *)
Record Connection : Type := mkConnection {
  _db_path : string;
  database : gmap string Table;
  _conn : bool;
  _cursor : bool
}.

Definition id_le (a b : Row) : Prop := id a <= id b.

#[global] Instance id_le_dec : RelDecision id_le.
Proof. intros a b. unfold id_le. apply Z_le_dec. Defined.

#[global] Instance id_le_trans : Transitive id_le.
Proof. intros a b c. unfold id_le. lia. Qed.

#[global] Instance id_le_total : Total id_le.
Proof. intros a b. unfold id_le. lia. Qed.

Module Sqlite.

(** [session_ts IS NULL] *)
Definition unconsumed (r : TableRow) : Prop := row_session_ts r = None.

#[global] Instance unconsumed_dec r : Decision (unconsumed r).
Proof. unfold unconsumed. apply _. Defined.

Definition project (r : TableRow) : Row :=
  {| id := row_id r; content := row_content r |}.

Definition max_id (l : list TableRow) : Z :=
  foldr (fun r m => Z.max (row_id r) m) 0 l.

(** The largest identifier a record can have (a signed 64-bit integer). *)
Definition max_rowid : Z := 9223372036854775807.

(** The identifier AUTOINCREMENT gives the next record: one more than the
    largest the table has ever held. *)
Definition next_id (t : Table) : Z :=
  Z.max (sqlite_sequence t) (max_id (rows t)) + 1.

(** INSERT INTO t (content, session_ts, hostname, pid) VALUES (?,?,?,?).
    Once the largest identifier has been used no record can be inserted
    any more: the statement fails and the table is as before. *)
Definition insert_into (text : string) (ts : Z) (host : string) (pid : Z)
           (t : Table) : Outcome (unit * Table) :=
  if max_rowid <? next_id t
  then Raise (OperationalError "database or disk is full")
  else Return (tt,
               mkTable (rows t ++ [mkTableRow (next_id t) text (Some ts)
                                              (Some host) (Some pid)])
                       (next_id t)).

(** SELECT id, content FROM t WHERE session_ts IS NULL ORDER BY id *)
Definition select_unconsumed (t : Table) : list Row :=
  merge_sort id_le (project <$> filter unconsumed (rows t)).

Definition stamp (ts : Z) (host : string) (pid : Z) (rid : Z)
           (r : TableRow) : TableRow :=
  if row_id r =? rid
  then mkTableRow (row_id r) (row_content r) (Some ts) (Some host) (Some pid)
  else r.

(** UPDATE t SET session_ts = ?, hostname = ?, pid = ? WHERE id = ? *)
Definition update_where_id (ts : Z) (host : string) (pid : Z) (rid : Z)
           (t : Table) : Table :=
  mkTable (map (stamp ts host pid rid) (rows t)) (sqlite_sequence t).

Definition set_database (d : gmap string Table) (c : Connection)
  : Connection :=
  mkConnection (_db_path c) d (_conn c) (_cursor c).

(** Upper-case ASCII letters to lower case: SQLite compares the names of
    tables without regard to the case of ASCII letters. *)
Definition lower (c : Ascii.ascii) : Ascii.ascii :=
  let n := Ascii.nat_of_ascii c in
  if ((65 <=? n) && (n <=? 90))%nat then Ascii.ascii_of_nat (n + 32) else c.

Fixpoint fold_case (s : string) : string :=
  match s with
  | EmptyString => EmptyString
  | String c s' => String (lower c) (fold_case s')
  end.

Definition same_name (a b : string) : bool :=
  String.eqb (fold_case a) (fold_case b).

(** The table a statement means by the name [tn], with the name the
    database has it under: the table of exactly that name, or else one
    whose name differs from [tn] in the case of letters only (SQLite
    keeps no two tables whose names differ in case only). *)
Definition resolve (d : gmap string Table) (tn : string)
  : option (string * Table) :=
  match d !! tn with
  | Some t => Some (tn, t)
  | None => List.find (fun kt => same_name (fst kt) tn) (map_to_list d)
  end.

(** Names that a statement's text reads as one identifier: letters,
    digits and underscores, not starting with a digit.  The subclass
    pastes the table name into the text of its statements unquoted; what
    is said below about a name that resolves to no table is said of such
    names. *)
Definition name_char (c : Ascii.ascii) : bool :=
  let n := Ascii.nat_of_ascii c in
  (((65 <=? n) && (n <=? 90)) || ((97 <=? n) && (n <=? 122)) ||
   ((48 <=? n) && (n <=? 57)) || (n =? 95))%nat.

Definition plain_name (s : string) : bool :=
  match s with
  | EmptyString => false
  | String c _ =>
      let n := Ascii.nat_of_ascii c in
      negb ((48 <=? n) && (n <=? 57))%nat &&
      forallb name_char (list_ascii_of_string s)
  end.

(** [cursor.execute] of a statement on one table, then what the
    statement does to that table and yields.  A statement that fails
    changes nothing. *)
Definition execute {A} (c : Connection) (table : string)
           (stmt : Table -> Outcome (A * Table)) : Outcome A * Connection :=
  if negb (_conn c) then
    (Raise (ProgrammingError "Cannot operate on a closed database."), c)
  else if negb (_cursor c) then
    (Raise (ProgrammingError "Cannot operate on a closed cursor."), c)
  else
    match resolve (database c) table with
    | None => (Raise (OperationalError ("no such table: " ++ table)), c)
    | Some (name, t) =>
        match stmt t with
        | Return (a, t') =>
            (Return a, set_database (<[name := t']> (database c)) c)
        | Raise e => (Raise e, c)
        end
    end.

Definition commit (c : Connection) : Outcome unit * Connection :=
  if negb (_conn c) then
    (Raise (ProgrammingError "Cannot operate on a closed database."), c)
  else (Return tt, c).

Definition then_commit {A} (r : Outcome A * Connection)
  : Outcome A * Connection :=
  match r with
  | (Return a, c) =>
      match commit c with
      | (Return _, c') => (Return a, c')
      | (Raise e, c') => (Raise e, c')
      end
  | (Raise e, c) => (Raise e, c)
  end.

#[global] Instance hooks : Hooks Connection := {|
  _db_connect := fun self =>
    (Return tt,
     mkConnection (_db_path (backend self)) (database (backend self))
                  true true);
  _db_close := fun self =>
    (Return tt,
     mkConnection (_db_path (backend self)) (database (backend self))
                  false false);
  _write_record := fun self text =>
    then_commit
      (execute (backend self) (_table_name self)
         (fun t => insert_into text (_session_ts self)
                               (_hostname self) (_pid self) t));
  _fetch_unconsumed := fun self =>
    execute (backend self) (_table_name self)
      (fun t => Return (select_unconsumed t, t));
  _mark_consumed := fun self rid =>
    then_commit
      (execute (backend self) (_table_name self)
         (fun t => Return (tt, update_where_id (_session_ts self)
                                               (_hostname self)
                                               (_pid self) rid t)));
  _flush := fun self =>
    if negb (_closed self) then commit (backend self)
    else (Return tt, backend self)
|}.

(** [SqliteDatabaseStream(db_path, table_name, mode)] on the database
    file [file] found at [db_path]. *)
Definition __init__ (env : Session) (file : gmap string Table)
           (db_path table_name mode : string)
  : Outcome unit * Stream Connection :=
  DatabaseStream.__init__ env (mkConnection db_path file false false)
                          table_name mode.

(** The table a stream is bound to, as the store holds it now. *)
Definition table_of (self : Stream Connection) : option Table :=
  database (backend self) !! _table_name self.

End Sqlite.

(** ** Callers

    The operations of the public interface, as a caller names them, and
    callers that perform several of them in a row. *)

Inductive ReadOp : Type :=
| OpRead (size : Z)
| OpReadline (limit : Z)
| OpReadlines (hint : Z)
| OpIter
| OpNext.

Inductive Method : Type :=
| MWrite (s : string)
| MFlush
| MReadOp (op : ReadOp)
| MClose
| MEnter
| MExit.

Inductive Value : Type :=
| VStr (s : string)
| VList (l : list string)
| VSelf
| VNone
| VBool (b : bool).

Definition lift_value {S A} (f : A -> Value) (m : M S A) : M S Value :=
  a <-- m ;; ret (f a).

Definition run_op {B} {H : Hooks B} (op : ReadOp) : M (Stream B) Value :=
  match op with
  | OpRead size => lift_value VStr (DatabaseStream.read size)
  | OpReadline limit => lift_value VStr (DatabaseStream.readline limit)
  | OpReadlines hint => lift_value VList (DatabaseStream.readlines hint)
  | OpIter => lift_value (fun _ => VSelf) DatabaseStream.__iter__
  | OpNext => lift_value VStr DatabaseStream.__next__
  end.

Definition call {B} {H : Hooks B} (m : Method) : M (Stream B) Value :=
  match m with
  | MWrite s => lift_value (fun _ => VNone) (DatabaseStream.write s)
  | MFlush => lift_value (fun _ => VNone) DatabaseStream.flush
  | MReadOp op => run_op op
  | MClose => lift_value (fun _ => VNone) DatabaseStream.close
  | MEnter => lift_value (fun _ => VSelf) DatabaseStream.__enter__
  | MExit => lift_value VBool DatabaseStream.__exit__
  end.


Fixpoint call_all {B} {H : Hooks B} (ms : list Method) (self : Stream B)
  : list (Outcome Value) * Stream B :=
  match ms with
  | [] => ([], self)
  | m :: ms' =>
      let '(r, self') := call m self in
      let '(rs, self'') := call_all ms' self' in
      (r :: rs, self'')
  end.


(** The stream [self] once the database file holds [d], after other
    connections changed it. *)
Definition sees (d : gmap string Table) (self : Stream Connection)
  : Stream Connection :=
  mkStream (_table_name self) (_mode self) (_session_ts self)
           (_hostname self) (_pid self) (_closed self) (_row_iterator self)
           (Sqlite.set_database d (backend self)) (calls self).






(** A subclass whose release hook fails: SQLite's hooks, except that
    [_db_close] lets its error through. *)
Definition failing_close_hooks : Hooks Connection := {|
  _db_connect := @_db_connect _ Sqlite.hooks;
  _db_close := fun self =>
    (Raise (ProgrammingError "close failed"), backend self);
  _write_record := @_write_record _ Sqlite.hooks;
  _fetch_unconsumed := @_fetch_unconsumed _ Sqlite.hooks;
  _mark_consumed := @_mark_consumed _ Sqlite.hooks;
  _flush := @_flush _ Sqlite.hooks
|}.

(** ** Vocabulary of the statements *)

(** An open reader of the SQLite subclass as its constructor leaves it and
    its methods keep it: [it] is what the snapshot cursor has left and [t]
    the bound table as the store holds it. *)
Definition reader_inv (env : Session) (self : Stream Connection)
           (it : list Row) (t : Table) : Prop :=
  _closed self = false /\ _mode self = "r" /\
  _session_ts self = now env /\ _hostname self = gethostname env /\
  _pid self = getpid env /\
  _row_iterator self = Some it /\
  _conn (backend self) = true /\ _cursor (backend self) = true /\
  Sqlite.table_of self = Some t.

Definition writer_inv (env : Session) (self : Stream Connection)
           (t : Table) : Prop :=
  _closed self = false /\ _mode self = "w" /\
  _session_ts self = now env /\ _hostname self = gethostname env /\
  _pid self = getpid env /\
  _conn (backend self) = true /\ _cursor (backend self) = true /\
  Sqlite.table_of self = Some t.

(** The table after the rows of [chunk] were marked consumed, one UPDATE
    each, by the session [env]. *)
Definition mark_all (env : Session) (chunk : list Row) (t : Table) : Table :=
  foldl (fun t r =>
           Sqlite.update_where_id (now env) (gethostname env) (getpid env)
                                  (id r) t) t chunk.

Definition marks (chunk : list Row) : list Call :=
  map (fun r => CallMark (id r)) chunk.

Definition total_len (chunk : list Row) : Z :=
  foldr (fun r n => len (content r) + n) 0 chunk.

(** How far [read(size)] and [readlines(hint)] go: [chunk] is what was
    consumed, [rest] what the cursor has left. *)
Definition stops_at (size : Z) (chunk rest : list Row) : Prop :=
  (size < 0 -> rest = []) /\
  (0 <= size -> rest = [] \/ size <= total_len chunk) /\
  (0 <= size -> forall p q, chunk = p ++ q -> p <> [] -> q <> [] ->
                total_len p < size) /\
  (chunk = [] -> rest = []).

(** [stops_at] seen from inside the loop, whose running total is [tot]. *)
Definition stops_from (size tot : Z) (chunk rest : list Row) : Prop :=
  (size < 0 -> rest = []) /\
  (0 <= size -> rest = [] \/ size <= tot + total_len chunk) /\
  (0 <= size -> forall p q, chunk = p ++ q -> p <> [] -> q <> [] ->
                tot + total_len p < size) /\
  (chunk = [] -> rest = []).

Definition consumes (op : ReadOp) (chunk rest : list Row) : Prop :=
  match op with
  | OpRead size => stops_at size chunk rest
  | OpReadlines hint => stops_at hint chunk rest
  | OpReadline _ | OpNext => chunk = take 1 (chunk ++ rest)
  | OpIter => chunk = []
  end.

(** What an operation answers when it consumed [chunk]. *)
Definition answer (op : ReadOp) (chunk : list Row) : Outcome Value :=
  match op with
  | OpRead _ => Return (VStr (String.concat "" (map content chunk)))
  | OpReadline limit =>
      match chunk with
      | [] => Return (VStr "")
      | row :: _ =>
          Return (VStr (if 0 <=? limit then slice_to limit (content row)
                        else content row))
      end
  | OpReadlines _ => Return (VList (map content chunk))
  | OpIter => Return VSelf
  | OpNext =>
      match chunk with
      | [] => Raise StopIteration
      | row :: _ => Return (VStr (content row))
      end
  end.




Definition stamped (env : Session) (r : TableRow) : TableRow :=
  mkTableRow (row_id r) (row_content r) (Some (now env))
             (Some (gethostname env)) (Some (getpid env)).

(** The records of [l] once those whose identifier is among [ids] carry
    the stamp of [env]. *)
Definition stamp_ids (env : Session) (ids : list Z) (l : list TableRow)
  : list TableRow :=
  map (fun r => if bool_decide (row_id r ∈ ids) then stamped env r else r) l.

Definition env0 : Session :=
  {| now := 1700000000; gethostname := "host"; getpid := 4242 |}.


Definition stdin_two : gmap string Table :=
  {[ "stdin_stream" :=
       mkTable [ mkTableRow 1 "Input1" None None None;
                 mkTableRow 2 "Input2" None None None ] 2 ]}.

Definition stdout_empty : gmap string Table :=
  {[ "stdout_stream" := mkTable [] 0 ]}.

Definition hello_world : gmap string Table :=
  {[ "stdin_stream" :=
       mkTable [ mkTableRow 1 "Hello World" None None None ] 1 ]}.

(** The object [SqliteDatabaseStream(path, table, mode)] when the
    constructor returns. *)
Definition opened (env : Session) (file : gmap string Table)
           (table mode : string) : Stream Connection :=
  snd (Sqlite.__init__ env file "test.db" table mode).

(** ** Further vocabulary *)

(** What a stream is for life: its table, its mode and its session. *)
Definition identity_of {B} (self : Stream B)
  : string * string * Z * string * Z :=
  (_table_name self, _mode self, _session_ts self, _hostname self, _pid self).

(** A computation keeps the relation [R] between the object it finds and
    the object it leaves, whatever it answers. *)
Definition keeps {S A} (R : S -> S -> Prop) (m : M S A) : Prop :=
  forall s, R s (snd (m s)).

(** [for line in stream: lines.append(line)], after [__iter__] returned
    the stream: [__next__] until it raises [StopIteration], at most
    [fuel] times; [None] when [fuel] calls did not reach the end. *)
Fixpoint next_until_stop {B} {H : Hooks B} (fuel : nat) (lines : list string)
  : M (Stream B) (option (list string)) :=
  fun self =>
    match fuel with
    | O => (Return None, self)
    | S fuel' =>
        match DatabaseStream.__next__ self with
        | (Return line, self') => next_until_stop fuel' (lines ++ [line]) self'
        | (Raise StopIteration, self') => (Return (Some lines), self')
        | (Raise e, self') => (Raise e, self')
        end
    end.

Definition for_loop {B} {H : Hooks B} (fuel : nat)
  : M (Stream B) (option (list string)) :=
  DatabaseStream.__iter__ ;;; next_until_stop fuel [].

(** [with stream: body]: [__enter__]; the body; then [__exit__], also when
    the body raised.  An exception of [__exit__] itself replaces the
    body's; a body exception is swallowed, and the statement yields
    nothing, only when [__exit__] returns true. *)
Definition with_block {B} {H : Hooks B} {A} (body : M (Stream B) A)
  : M (Stream B) (option A) :=
  fun self =>
    match DatabaseStream.__enter__ self with
    | (Raise e, self0) => (Raise e, self0)
    | (Return _, self0) =>
        let '(r, self1) := body self0 in
        match DatabaseStream.__exit__ self1 with
        | (Raise e', self2) => (Raise e', self2)
        | (Return suppress, self2) =>
            match r with
            | Return a => (Return (Some a), self2)
            | Raise e => if suppress then (Return None, self2)
                         else (Raise e, self2)
            end
        end
    end.

(** Strictly ascending identifiers. *)
Definition id_lt (a b : Row) : Prop := id a < id b.

(** The session triple of a stream. *)
Definition session_of {B} (self : Stream B) : Z * string * Z :=
  (_session_ts self, _hostname self, _pid self).

(** The record [r] carries the stamp of the session [who]. *)
Definition stamped_by (who : Z * string * Z) (r : TableRow) : Prop :=
  row_session_ts r = Some (fst (fst who)) /\
  row_hostname r = Some (snd (fst who)) /\
  row_pid r = Some (snd who).

(** What may have become of a record [r]: identifier and content are
    the same, and it is untouched or carries the stamp of [who]. *)
Definition kept_by (who : Z * string * Z) (r r' : TableRow) : Prop :=
  row_id r' = row_id r /\ row_content r' = row_content r /\
  (r' = r \/ stamped_by who r').

(** What may have become of a table: its records are all there, in
    place, each kept as above; records stamped by [who] may follow them;
    and identifiers that were unique still are. *)
Definition table_grows (who : Z * string * Z) (t t' : Table) : Prop :=
  (exists old fresh,
      rows t' = old ++ fresh /\
      Forall2 (kept_by who) (rows t) old /\
      Forall (stamped_by who) fresh) /\
  (NoDup (row_id <$> rows t) -> NoDup (row_id <$> rows t')).

(** What may have become of a database file on which the session [who]
    works under the table name [tn]: tables whose name differs from [tn],
    whatever the case of the letters, are untouched; every table is still
    there and has grown at most, and none was created; and when [tn]
    resolves to no table the file is the same. *)
Definition db_step (who : Z * string * Z) (tn : string)
           (d d' : gmap string Table) : Prop :=
  (forall name, Sqlite.fold_case name <> Sqlite.fold_case tn ->
                d' !! name = d !! name) /\
  (forall name, option_Forall2 (table_grows who) (d !! name) (d' !! name)) /\
  (Sqlite.resolve d tn = None -> d' = d).

Definition store_evolves (s s' : Stream Connection) : Prop :=
  identity_of s' = identity_of s /\
  db_step (session_of s) (_table_name s)
          (database (backend s)) (database (backend s')).

(** * Properties *)

(** ** Running a method by hand *)

Ltac unfold_methods :=
  unfold call, run_op, lift_value, DatabaseStream.__exit__ in *;
  unfold DatabaseStream.write, DatabaseStream.flush, DatabaseStream.read,
    DatabaseStream.readline, DatabaseStream.readlines,
    DatabaseStream.__iter__, DatabaseStream.__next__, DatabaseStream.close,
    DatabaseStream.__enter__,
    DatabaseStream.check_closed, DatabaseStream.check_readable,
    DatabaseStream.row_iterator,
    bind, ret, raise, get_self, update in *.

Section AnyBackend.

Context {B : Type} {H : Hooks B}.

Lemma readable_closed (self : Stream B) :
  _closed self = true -> DatabaseStream.readable self = false.
Proof.
  intros Hc. unfold DatabaseStream.readable. rewrite Hc.
  apply andb_false_r.
Qed.

Lemma readable_open (self : Stream B) :
  _closed self = false ->
  DatabaseStream.readable self = String.eqb (_mode self) "r".
Proof.
  intros Hc. unfold DatabaseStream.readable. rewrite Hc.
  apply andb_true_r.
Qed.

Lemma writable_open (self : Stream B) :
  _closed self = false ->
  DatabaseStream.writable self = String.eqb (_mode self) "w".
Proof.
  intros Hc. unfold DatabaseStream.writable. rewrite Hc.
  apply andb_true_r.
Qed.

(** On a closed stream every method leaves the object as it found it. *)
Lemma call_closed_unchanged (self : Stream B) (m : Method) :
  _closed self = true -> snd (call m self) = self.
Proof.
  intros Hc. pose proof (readable_closed self Hc) as Hr.
  destruct m as [s| |op| | |]; try destruct op; unfold_methods;
    rewrite ?Hc, ?Hr; reflexivity.
Qed.

(** Every guarded method of a closed stream raises the closed-stream
    error; [__iter__], which has no such guard, is not in the list. *)
Lemma call_closed_raises (self : Stream B) (m : Method) :
  _closed self = true ->
  m <> MReadOp OpIter -> m <> MClose -> m <> MExit ->
  call m self = (Raise ClosedStreamError, self).
Proof.
  intros Hc Hi Hcl Hex.
  destruct m as [s| |op| | |]; try destruct op; try congruence;
    unfold_methods; rewrite Hc; reflexivity.
Qed.

Lemma call_all_closed (ms : list Method) (self : Stream B) :
  _closed self = true -> snd (call_all ms self) = self.
Proof.
  revert self. induction ms as [|m ms IH]; intros self Hc; [reflexivity|].
  simpl. pose proof (call_closed_unchanged self m Hc) as Hm.
  destruct (call m self) as [r self'] eqn:E. simpl in Hm. subst self'.
  specialize (IH self Hc).
  destruct (call_all ms self) as [rs self''] eqn:E'. exact IH.
Qed.

Lemma close_sets_closed (self : Stream B) :
  _closed (snd (DatabaseStream.close self)) = true.
Proof.
  unfold_methods. destruct (_closed self) eqn:Hc; [exact Hc|].
  unfold DatabaseStream.invoke.
  destruct (_db_close (set_closed true self)) as [r b]. reflexivity.
Qed.

Lemma close_closed (self : Stream B) :
  _closed self = true -> DatabaseStream.close self = (Return tt, self).
Proof. intros Hc. unfold_methods. rewrite Hc. reflexivity. Qed.

End AnyBackend.

(** ** The SQLite store *)

Lemma resolve_exact (d : gmap string Table) tn t :
  d !! tn = Some t -> Sqlite.resolve d tn = Some (tn, t).
Proof. intros Ht. unfold Sqlite.resolve. rewrite Ht. reflexivity. Qed.

Lemma resolve_Some (d : gmap string Table) tn name t :
  Sqlite.resolve d tn = Some (name, t) ->
  d !! name = Some t /\ Sqlite.fold_case name = Sqlite.fold_case tn.
Proof.
  unfold Sqlite.resolve. destruct (d !! tn) as [t0|] eqn:Ht.
  - intros [= <- <-]. split; [exact Ht|reflexivity].
  - intros Hfind. apply find_some in Hfind as [Hin Hsame]. simpl in Hsame.
    apply list_elem_of_In, elem_of_map_to_list in Hin.
    split; [exact Hin|]. apply String.eqb_eq, Hsame.
Qed.

Lemma resolve_None (d : gmap string Table) tn :
  Sqlite.resolve d tn = None ->
  forall name t, d !! name = Some t ->
                 Sqlite.fold_case name <> Sqlite.fold_case tn.
Proof.
  unfold Sqlite.resolve. destruct (d !! tn) as [t0|] eqn:Ht; [discriminate|].
  intros Hfind name t Hname Heq.
  assert (Hin : In (name, t) (map_to_list d))
    by (apply list_elem_of_In, elem_of_map_to_list, Hname).
  pose proof (find_none _ _ Hfind _ Hin) as Hno. simpl in Hno.
  unfold Sqlite.same_name in Hno. rewrite Heq, String.eqb_refl in Hno.
  discriminate.
Qed.

Lemma reader_inv_set_iterator env self it0 it t :
  reader_inv env self it0 t -> reader_inv env (set_row_iterator it self) it t.
Proof.
  unfold reader_inv. intros (Hc & Hm & Hts & Hh & Hp & _ & Hco & Hcu & Ht).
  repeat split; assumption.
Qed.


Lemma init_writer env file path tn t :
  file !! tn = Some t ->
  exists s0,
    Sqlite.__init__ env file path tn "w" = (Return tt, s0) /\
    writer_inv env s0 t /\ calls s0 = [CallConnect] /\
    _row_iterator s0 = None /\ _table_name s0 = tn.
Proof.
  intros Ht.
  unfold Sqlite.__init__, DatabaseStream.__init__, DatabaseStream.invoke,
    bind, get_self, update, ret. simpl.
  eexists. split; [reflexivity|].
  unfold writer_inv, Sqlite.table_of. simpl. repeat split. exact Ht.
Qed.

(** One consumption step: the UPDATE of the row, committed. *)
Lemma mark_step env self it0 t it' rid :
  reader_inv env self it0 t ->
  exists s',
    DatabaseStream.invoke (CallMark rid)
      (fun self => _mark_consumed self rid) (set_row_iterator it' self)
    = (Return tt, s') /\
    reader_inv env s' it'
      (Sqlite.update_where_id (now env) (gethostname env) (getpid env) rid t)
    /\ calls s' = calls self ++ [CallMark rid].
Proof.
  unfold reader_inv, Sqlite.table_of.
  intros (Hc & Hm & Hts & Hh & Hp & _ & Hco & Hcu & Ht).
  unfold DatabaseStream.invoke. simpl.
  unfold Sqlite.execute. rewrite Hco, Hcu. simpl.
  rewrite (resolve_exact _ _ _ Ht). simpl.
  unfold Sqlite.commit. simpl. rewrite Hco. simpl.
  eexists. split; [reflexivity|]. simpl.
  rewrite Hts, Hh, Hp. repeat split; try assumption.
  apply lookup_insert_eq.
Qed.



Lemma total_len_app a b : total_len (a ++ b) = total_len a + total_len b.
Proof.
  induction a as [|r a IH]; simpl; [reflexivity|]. rewrite IH. lia.
Qed.

Lemma total_len_nonneg a : 0 <= total_len a.
Proof.
  induction a as [|r a IH]; simpl; [lia|]. unfold len. lia.
Qed.

(** ** The consumption loops *)

Lemma stops_from_zero size chunk rest :
  stops_from size 0 chunk rest <-> stops_at size chunk rest.
Proof. unfold stops_from, stops_at. simpl. reflexivity. Qed.

Lemma stops_from_one size tot row rest :
  ((0 <=? size) && (size <=? tot + len (content row))) = true ->
  stops_from size tot [row] rest.
Proof.
  intros Hb. apply andb_true_iff in Hb as [H0 H1].
  apply Z.leb_le in H0. apply Z.leb_le in H1.
  unfold stops_from. simpl. split; [lia|]. split; [|split].
  - intros _. right. lia.
  - intros _ p q Hpq Hp Hq. destruct p as [|x p]; [congruence|].
    destruct p; destruct q; simpl in Hpq; congruence.
  - discriminate.
Qed.

Lemma stops_from_more size tot row chunk rest :
  ((0 <=? size) && (size <=? tot + len (content row))) = false ->
  stops_from size (tot + len (content row)) chunk rest ->
  stops_from size tot (row :: chunk) rest.
Proof.
  intros Hb (Hneg & Hend & Hmin & Hnil).
  assert (Hlt : 0 <= size -> tot + len (content row) < size).
  { intros H0. apply andb_false_iff in Hb as [Hb|Hb];
      apply Z.leb_gt in Hb; lia. }
  unfold stops_from. simpl. split; [exact Hneg|]. split; [|split].
  - intros H0. destruct (Hend H0) as [->|Hge]; [left; reflexivity|right; lia].
  - intros H0 p q Hpq Hp Hq. destruct p as [|x p]; [congruence|].
    simpl in Hpq. injection Hpq as -> Hpq. simpl.
    destruct p as [|y p].
    + simpl. specialize (Hlt H0). lia.
    + specialize (Hmin H0 (y :: p) q Hpq ltac:(discriminate) Hq). lia.
  - discriminate.
Qed.

Lemma read_loop_spec env size it :
  forall self it0 t acc tot,
    reader_inv env self it0 t ->
    exists chunk rest s',
      it = chunk ++ rest /\
      DatabaseStream.read_loop size it acc tot self
      = (Return (acc ++ map content chunk), s') /\
      stops_from size tot chunk rest /\
      reader_inv env s' rest (mark_all env chunk t) /\
      calls s' = calls self ++ marks chunk.
Proof.
  induction it as [|row it' IH]; intros self it0 t acc tot Hinv.
  - exists [], [], (set_row_iterator [] self). simpl.
    rewrite !app_nil_r. split; [reflexivity|]. split; [reflexivity|].
    split; [|split; [|reflexivity]].
    + unfold stops_from. simpl. split; [reflexivity|].
      split; [left; reflexivity|]. split; [|reflexivity].
      intros _ p q Hpq Hp. destruct p; [congruence|discriminate].
    + eapply reader_inv_set_iterator, Hinv.
  - destruct (mark_step env self it0 t it' (id row) Hinv)
      as (s1 & Hstep & Hinv1 & Hcalls1).
    cbn [DatabaseStream.read_loop]. unfold bind at 1, update at 1.
    unfold bind at 1. rewrite Hstep.
    destruct ((0 <=? size) && (size <=? tot + len (content row))) eqn:Hb.
    + exists [row], it', s1. simpl. split; [reflexivity|].
      split; [reflexivity|]. split; [apply stops_from_one, Hb|].
      split; assumption.
    + destruct (IH s1 it' _ (acc ++ [content row]) (tot + len (content row))
                   Hinv1) as (chunk & rest & s' & -> & Hrun & Hstop & Hinv' & Hc').
      exists (row :: chunk), rest, s'. simpl. rewrite Hrun.
      rewrite <- app_assoc. simpl. split; [reflexivity|].
      split; [reflexivity|]. split; [apply stops_from_more; assumption|].
      split; [assumption|].
      rewrite Hc', Hcalls1, <- app_assoc. reflexivity.
Qed.

Lemma readlines_loop_spec env hint it :
  forall self it0 t acc tot,
    reader_inv env self it0 t ->
    exists chunk rest s',
      it = chunk ++ rest /\
      DatabaseStream.readlines_loop hint it acc tot self
      = (Return (acc ++ map content chunk), s') /\
      stops_from hint tot chunk rest /\
      reader_inv env s' rest (mark_all env chunk t) /\
      calls s' = calls self ++ marks chunk.
Proof.
  induction it as [|row it' IH]; intros self it0 t acc tot Hinv.
  - exists [], [], (set_row_iterator [] self). simpl.
    rewrite !app_nil_r. split; [reflexivity|]. split; [reflexivity|].
    split; [|split; [|reflexivity]].
    + unfold stops_from. simpl. split; [reflexivity|].
      split; [left; reflexivity|]. split; [|reflexivity].
      intros _ p q Hpq Hp. destruct p; [congruence|discriminate].
    + eapply reader_inv_set_iterator, Hinv.
  - destruct (mark_step env self it0 t it' (id row) Hinv)
      as (s1 & Hstep & Hinv1 & Hcalls1).
    cbn [DatabaseStream.readlines_loop]. unfold bind at 1, update at 1.
    unfold bind at 1. rewrite Hstep.
    destruct ((0 <=? hint) && (hint <=? tot + len (content row))) eqn:Hb.
    + exists [row], it', s1. simpl. split; [reflexivity|].
      split; [reflexivity|]. split; [apply stops_from_one, Hb|].
      split; assumption.
    + destruct (IH s1 it' _ (acc ++ [content row]) (tot + len (content row))
                   Hinv1) as (chunk & rest & s' & -> & Hrun & Hstop & Hinv' & Hc').
      exists (row :: chunk), rest, s'. simpl. rewrite Hrun.
      rewrite <- app_assoc. simpl. split; [reflexivity|].
      split; [reflexivity|]. split; [apply stops_from_more; assumption|].
      split; [assumption|].
      rewrite Hc', Hcalls1, <- app_assoc. reflexivity.
Qed.

(** ** One read-style operation on an open reader *)

Arguments DatabaseStream.invoke : simpl never.
Arguments set_row_iterator : simpl never.

Lemma reader_readable env self it t :
  reader_inv env self it t -> DatabaseStream.readable self = true.
Proof.
  intros (Hc & Hm & _). rewrite (readable_open self Hc), Hm. reflexivity.
Qed.

Lemma run_op_spec env op self it t :
  reader_inv env self it t ->
  exists chunk rest s',
    it = chunk ++ rest /\
    run_op op self = (answer op chunk, s') /\
    consumes op chunk rest /\
    reader_inv env s' rest (mark_all env chunk t) /\
    calls s' = calls self ++ marks chunk.
Proof.
  intros Hinv. pose proof (reader_readable env self it t Hinv) as Hr.
  pose proof Hinv as (Hc & Hm & _ & _ & _ & Hit & _).
  destruct op as [size|limit|hint| |]; unfold_methods;
    rewrite ?Hc; simpl; rewrite ?Hr; simpl; rewrite ?Hit; simpl.
  - destruct (read_loop_spec env size it self it t [] 0 Hinv)
      as (chunk & rest & s' & Hsplit & Hrun & Hstop & Hinv' & Hcalls).
    exists chunk, rest, s'. rewrite Hrun. simpl.
    split; [exact Hsplit|]. split; [reflexivity|].
    split; [apply stops_from_zero, Hstop|]. split; assumption.
  - destruct it as [|row it'].
    + exists [], [], self. simpl. rewrite app_nil_r.
      split; [reflexivity|]. split; [reflexivity|]. split; [reflexivity|].
      split; [exact Hinv|reflexivity].
    + destruct (mark_step env self _ t it' (id row) Hinv)
        as (s1 & Hstep & Hinv1 & Hcalls1).
      simpl in Hstep. rewrite Hstep. exists [row], it', s1. simpl.
      split; [reflexivity|].
      split; [destruct (0 <=? limit); reflexivity|].
      split; [reflexivity|]. split; assumption.
  - destruct (readlines_loop_spec env hint it self it t [] 0 Hinv)
      as (chunk & rest & s' & Hsplit & Hrun & Hstop & Hinv' & Hcalls).
    exists chunk, rest, s'. rewrite Hrun. simpl.
    split; [exact Hsplit|]. split; [reflexivity|].
    split; [apply stops_from_zero, Hstop|]. split; assumption.
  - exists [], it, self. simpl. rewrite app_nil_r.
    split; [reflexivity|]. split; [reflexivity|]. split; [reflexivity|].
    split; [exact Hinv|reflexivity].
  - destruct it as [|row it'].
    + exists [], [], self. simpl. rewrite app_nil_r.
      split; [reflexivity|]. split; [reflexivity|]. split; [reflexivity|].
      split; [exact Hinv|reflexivity].
    + destruct (mark_step env self _ t it' (id row) Hinv)
        as (s1 & Hstep & Hinv1 & Hcalls1).
      simpl in Hstep. rewrite Hstep. exists [row], it', s1. simpl.
      split; [reflexivity|]. split; [reflexivity|].
      split; [reflexivity|]. split; assumption.
Qed.

Example scenario_A :
  let s0 := opened env0 stdin_two "stdin_stream" "r" in
  let '(r1, s1) := DatabaseStream.readline (-1) s0 in
  let '(r2, s2) := DatabaseStream.read (-1) s1 in
  r1 = Return "Input1" /\ r2 = Return "Input2" /\
  (rows <$> Sqlite.table_of s2) =
    Some [ mkTableRow 1 "Input1" (Some 1700000000) (Some "host") (Some 4242);
           mkTableRow 2 "Input2" (Some 1700000000) (Some "host") (Some 4242) ].
Proof. vm_compute. auto. Qed.

(** ** What the UPDATEs leave in the table *)

Lemma stamp_ids_cons env rid ids l :
  stamp_ids env ids
    (map (Sqlite.stamp (now env) (gethostname env) (getpid env) rid) l)
  = stamp_ids env (rid :: ids) l.
Proof.
  unfold stamp_ids. rewrite map_map. apply map_ext. intros x.
  unfold Sqlite.stamp. destruct (Z.eqb_spec (row_id x) rid) as [Heq|Hne].
  - rewrite (bool_decide_eq_true_2 (row_id x ∈ rid :: ids))
      by (rewrite Heq; apply list_elem_of_here).
    match goal with |- context [bool_decide ?P] => destruct (bool_decide P) end;
      reflexivity.
  - rewrite (bool_decide_ext (row_id x ∈ rid :: ids) (row_id x ∈ ids));
      [reflexivity|]. rewrite elem_of_cons. tauto.
Qed.

Lemma stamp_ids_nil env l : stamp_ids env [] l = l.
Proof.
  unfold stamp_ids. rewrite <- (map_id l) at 2. apply map_ext. intros x.
  rewrite bool_decide_eq_false_2; [reflexivity|]. apply not_elem_of_nil.
Qed.

Lemma mark_all_table env chunk :
  forall t,
    mark_all env chunk t
    = mkTable (stamp_ids env (map id chunk) (rows t)) (sqlite_sequence t).
Proof.
  induction chunk as [|r chunk IH]; intros t.
  - simpl. rewrite stamp_ids_nil. destruct t; reflexivity.
  - unfold mark_all in *. simpl. rewrite IH. simpl.
    rewrite stamp_ids_cons. reflexivity.
Qed.

Lemma stamp_ids_content env ids l :
  map row_content (stamp_ids env ids l) = map row_content l /\
  map row_id (stamp_ids env ids l) = map row_id l.
Proof.
  unfold stamp_ids. rewrite !map_map.
  split; apply map_ext; intros x;
    destruct (bool_decide (row_id x ∈ ids)); reflexivity.
Qed.

(** ** The snapshot *)






(** ** Writers *)







(** ** Sequences of operations *)









Lemma max_id_bound (l : list TableRow) r :
  r ∈ l -> row_id r <= Sqlite.max_id l.
Proof.
  induction l as [|x l IH]; intros Hr.
  - apply elem_of_nil in Hr. contradiction.
  - simpl. apply elem_of_cons in Hr as [->|Hr]; [lia|].
    specialize (IH Hr). lia.
Qed.

Lemma substring_prefix n :
  forall s, exists suffix,
    s = (String.substring 0 n s ++ suffix)%string /\
    String.length (String.substring 0 n s) = Nat.min n (String.length s).
Proof.
  induction n as [|n IH]; intros s.
  - exists s. destruct s; split; reflexivity.
  - destruct s as [|c s].
    + exists EmptyString. split; reflexivity.
    + destruct (IH s) as (suffix & Heq & Hlen). exists suffix. simpl.
      split; [rewrite Heq at 1; reflexivity|]. rewrite Hlen. reflexivity.
Qed.

Lemma slice_to_prefix limit s :
  0 <= limit ->
  exists suffix,
    s = (slice_to limit s ++ suffix)%string /\
    len (slice_to limit s) = Z.min limit (len s).
Proof.
  intros Hl. unfold slice_to, len.
  destruct (substring_prefix (Z.to_nat limit) s) as (suffix & Heq & Hlen).
  exists suffix. split; [exact Heq|]. rewrite Hlen. lia.
Qed.

(** * The stream contract *)



Lemma lift_value_return {S A} (f : A -> Value) (m : M S A) s v s'
      (inj : forall a b, f a = f b -> a = b) a :
  lift_value f m s = (Return v, s') -> v = f a -> m s = (Return a, s').
Proof.
  unfold lift_value, bind, ret. destruct (m s) as [[a'|e] s1]; intros Heq ->.
  - injection Heq as Hf ->. apply inj in Hf. subst. reflexivity.
  - discriminate.
Qed.

(** C2.  On an open reader [read(size)] consumes an initial part [chunk]
    of what the cursor holds, record by whole record, and returns the
    contents of [chunk] joined in order.  For [size < 0] it is everything
    left.  For [size >= 0] consumption goes on until the joined length has
    reached [size] or the cursor is empty, and not longer, so the result
    may be longer than [size].  On an exhausted cursor the result is the
    empty string, and [read(0)] on a cursor that is not exhausted consumes
    exactly the first record and returns its content in full. *)
Theorem read_consumes_whole_records env self it t size :
  reader_inv env self it t ->
  exists chunk rest s',
    it = chunk ++ rest /\
    DatabaseStream.read size self
    = (Return (String.concat "" (map content chunk)), s') /\
    _row_iterator s' = Some rest /\
    Sqlite.table_of s' = Some (mark_all env chunk t) /\
    calls s' = calls self ++ marks chunk /\
    stops_at size chunk rest /\
    (size < 0 -> chunk = it) /\
    (it = [] -> chunk = []) /\
    (size = 0 -> chunk = take 1 it).
Proof.
  intros Hinv.
  destruct (run_op_spec env (OpRead size) self it t Hinv)
    as (chunk & rest & s' & Hsplit & Hrun & Hstop & Hinv' & Hcalls).
  exists chunk, rest, s'. simpl in Hrun, Hstop.
  apply (lift_value_return VStr _ _ _ _ ltac:(congruence)
           (String.concat "" (map content chunk))) in Hrun; [|reflexivity].
  destruct Hinv' as (_ & _ & _ & _ & _ & Hit & _ & _ & Htab).
  split; [exact Hsplit|]. split; [exact Hrun|]. split; [exact Hit|].
  split; [exact Htab|]. split; [exact Hcalls|]. split; [exact Hstop|].
  destruct Hstop as (Hneg & Hend & Hmin & Hnil).
  split; [|split].
  - intros Hs. rewrite Hsplit, (Hneg Hs). symmetry. apply app_nil_r.
  - intros ->. symmetry in Hsplit. apply app_eq_nil in Hsplit as [-> _].
    reflexivity.
  - intros ->. subst it. destruct chunk as [|x [|y chunk]].
    + rewrite (Hnil eq_refl). reflexivity.
    + reflexivity.
    + exfalso.
      specialize (Hmin ltac:(lia) [x] (y :: chunk) eq_refl
                       ltac:(discriminate) ltac:(discriminate)).
      pose proof (total_len_nonneg [x]). lia.
Qed.

Lemma read_consumes_whole_records_witness :
  exists chunk rest s',
    [ {| id := 1; content := "Input1" |}; {| id := 2; content := "Input2" |} ]
    = chunk ++ rest /\
    DatabaseStream.read 0 (opened env0 stdin_two "stdin_stream" "r")
    = (Return (String.concat "" (map content chunk)), s') /\
    chunk = [ {| id := 1; content := "Input1" |} ].
Proof.
  assert (Hinv : reader_inv env0 (opened env0 stdin_two "stdin_stream" "r")
                   [ {| id := 1; content := "Input1" |};
                     {| id := 2; content := "Input2" |} ]
                   (mkTable [ mkTableRow 1 "Input1" None None None;
                              mkTableRow 2 "Input2" None None None ] 2))
    by (repeat split; reflexivity).
  destruct (read_consumes_whole_records env0 _ _ _ 0 Hinv)
    as (chunk & rest & s' & Hsplit & Hrun & _ & _ & _ & _ & _ & _ & Hzero).
  exists chunk, rest, s'. split; [exact Hsplit|]. split; [exact Hrun|].
  apply Hzero. reflexivity.
Defined.

(** C3.  On an open reader [readline(limit)] on an exhausted cursor
    returns the empty string and changes nothing.  Otherwise it consumes
    exactly the first record the cursor holds: that record, whole, is
    marked consumed by one UPDATE, the identifiers and contents stored in
    the table stay as they were, and the result is the record's content,
    cut to its first [limit] characters when [limit >= 0]. *)
Theorem readline_consumes_one_record env self it t limit :
  reader_inv env self it t ->
  match it with
  | [] => DatabaseStream.readline limit self = (Return "", self)
  | row :: it' =>
      exists s' t',
        DatabaseStream.readline limit self
        = (Return (if 0 <=? limit then slice_to limit (content row)
                   else content row), s') /\
        _row_iterator s' = Some it' /\
        calls s' = calls self ++ [CallMark (id row)] /\
        Sqlite.table_of s' = Some t' /\
        rows t' = stamp_ids env [id row] (rows t) /\
        map row_content (rows t') = map row_content (rows t) /\
        map row_id (rows t') = map row_id (rows t) /\
        (0 <= limit ->
         exists suffix,
           content row = (slice_to limit (content row) ++ suffix)%string /\
           len (slice_to limit (content row))
           = Z.min limit (len (content row)))
  end.
Proof.
  intros Hinv.
  destruct (run_op_spec env (OpReadline limit) self it t Hinv)
    as (chunk & rest & s' & Hsplit & Hrun & Hcons & Hinv' & Hcalls).
  simpl in Hcons. rewrite <- Hsplit in Hcons.
  destruct it as [|row it'].
  - simpl in Hcons. subst chunk. simpl in Hrun.
    unfold_methods.
    destruct Hinv as (Hc & Hm & _ & _ & _ & Hit & _).
    rewrite Hc. simpl.
    unfold DatabaseStream.readable. rewrite Hc, Hm. simpl.
    rewrite Hit. reflexivity.
  - simpl in Hcons. subst chunk. simpl in Hsplit.
    injection Hsplit as <-. simpl in Hrun.
    apply (lift_value_return VStr _ _ _ _ ltac:(congruence)
             (if 0 <=? limit then slice_to limit (content row)
              else content row)) in Hrun; [|reflexivity].
    destruct Hinv' as (_ & _ & _ & _ & _ & Hit & _ & _ & Htab).
    exists s', (mark_all env [row] t).
    split; [exact Hrun|]. split; [exact Hit|]. split; [exact Hcalls|].
    split; [exact Htab|]. rewrite mark_all_table. simpl.
    split; [reflexivity|].
    split; [apply stamp_ids_content|]. split; [apply stamp_ids_content|].
    apply slice_to_prefix.
Qed.

Lemma readline_consumes_one_record_witness :
  exists s' t',
    DatabaseStream.readline 5 (opened env0 hello_world "stdin_stream" "r")
    = (Return "Hello", s') /\
    Sqlite.table_of s' = Some t' /\
    map row_content (rows t') = ["Hello World"] /\
    rows t'
    = [mkTableRow 1 "Hello World" (Some 1700000000) (Some "host") (Some 4242)].
Proof.
  assert (Hinv : reader_inv env0 (opened env0 hello_world "stdin_stream" "r")
                   [ {| id := 1; content := "Hello World" |} ]
                   (mkTable [ mkTableRow 1 "Hello World" None None None ] 1))
    by (repeat split; reflexivity).
  destruct (readline_consumes_one_record env0 _ _ _ 5 Hinv)
    as (s' & t' & Hrun & _ & _ & Htab & Hrows & Hcontent & _).
  exists s', t'. split; [exact Hrun|]. split; [exact Htab|].
  split; [exact Hcontent|]. rewrite Hrows. reflexivity.
Defined.



(** C5.  On an open stream, [write] on a stream constructed in read mode
    raises the unsupported-operation error, and so does every read-style
    operation ([read], [readline], [readlines], obtaining the iterator and
    advancing it) on a stream constructed in write mode; the object is
    left as it was. *)
Theorem wrong_mode_is_unsupported {B} {H : Hooks B} (self : Stream B) :
  _closed self = false ->
  (_mode self = "r" ->
   forall s, DatabaseStream.write s self
             = (Raise (UnsupportedOperation "Stream is not writable."), self))
  /\
  (_mode self = "w" ->
   forall op, run_op op self
              = (Raise (UnsupportedOperation "Stream is not readable."), self)).
Proof.
  intros Hc. split; intros Hm.
  - intros s. unfold_methods. rewrite Hc. simpl.
    rewrite (writable_open self Hc), Hm. reflexivity.
  - intros op. pose proof (readable_open self Hc) as Hr.
    rewrite Hm in Hr. simpl in Hr.
    destruct op; unfold_methods; rewrite ?Hc; simpl; rewrite Hr; reflexivity.
Qed.

Lemma wrong_mode_is_unsupported_witness :
  DatabaseStream.write "text" (opened env0 stdin_two "stdin_stream" "r")
  = (Raise (UnsupportedOperation "Stream is not writable."),
     opened env0 stdin_two "stdin_stream" "r") /\
  run_op (OpReadline (-1)) (opened env0 stdout_empty "stdout_stream" "w")
  = (Raise (UnsupportedOperation "Stream is not readable."),
     opened env0 stdout_empty "stdout_stream" "w").
Proof.
  split.
  - apply (wrong_mode_is_unsupported
             (opened env0 stdin_two "stdin_stream" "r")); reflexivity.
  - apply (wrong_mode_is_unsupported
             (opened env0 stdout_empty "stdout_stream" "w")); reflexivity.
Defined.

(** C7.  [close] is idempotent.  A first call on an open stream sets the
    closed flag and then calls the release hook, on the object already
    flagged; a call on a closed stream does nothing.  So a second call
    returns normally and leaves the object exactly as the first left
    it. *)
Theorem close_is_idempotent {B} {H : Hooks B} (self : Stream B) :
  let once := DatabaseStream.close self in
  let twice := DatabaseStream.close (snd once) in
  twice = (Return tt, snd once) /\
  _closed (snd once) = true /\
  once = (if _closed self then (Return tt, self)
          else (fst (_db_close (set_closed true self)),
                after_call CallClose (snd (_db_close (set_closed true self)))
                           (set_closed true self))).
Proof.
  intros once twice. subst twice once.
  split; [apply close_closed, close_sets_closed|].
  split; [apply close_sets_closed|].
  unfold_methods. destruct (_closed self); [reflexivity|].
  unfold DatabaseStream.invoke.
  destruct (_db_close (set_closed true self)); reflexivity.
Qed.

(** C10.  Closedness is monotone.  No method makes the closed flag of a
    closed stream false again.  [close] sets the flag before it calls the
    release hook, so after [close] the stream is closed whatever the hook
    did, also when the hook raised and [close] passed the exception on,
    and a further [close] does nothing. *)
Theorem closed_flag_is_monotone {B} {H : Hooks B} (self : Stream B)
        (ms : list Method) :
  (_closed self = true -> _closed (snd (call_all ms self)) = true) /\
  (let after := snd (DatabaseStream.close self) in
   _closed after = true /\
   DatabaseStream.close after = (Return tt, after) /\
   _closed (snd (call_all ms after)) = true) /\
  (_closed self = false ->
   _closed (set_closed true self) = true /\
   fst (DatabaseStream.close self) = fst (_db_close (set_closed true self))).
Proof.
  split; [|split].
  - intros Hc. rewrite (call_all_closed ms self Hc). exact Hc.
  - pose proof (close_sets_closed self) as Hc.
    split; [exact Hc|]. split; [apply close_closed, Hc|].
    rewrite (call_all_closed ms _ Hc). exact Hc.
  - intros Hc. split; [reflexivity|].
    unfold_methods. rewrite Hc. unfold DatabaseStream.invoke.
    destruct (_db_close (set_closed true self)); reflexivity.
Qed.

Lemma closed_flag_is_monotone_witness :
  let self := opened env0 stdin_two "stdin_stream" "r" in
  let after := snd (@DatabaseStream.close _ failing_close_hooks self) in
  fst (@DatabaseStream.close _ failing_close_hooks self)
  = Raise (ProgrammingError "close failed") /\
  _closed after = true /\
  @DatabaseStream.close _ failing_close_hooks after = (Return tt, after) /\
  _closed (snd (@call_all _ failing_close_hooks
                  [MReadOp (OpRead (-1)); MEnter; MExit; MClose; MFlush]
                  after)) = true.
Proof.
  destruct (@closed_flag_is_monotone _ failing_close_hooks
              (opened env0 stdin_two "stdin_stream" "r")
              [MReadOp (OpRead (-1)); MEnter; MExit; MClose; MFlush])
    as (_ & (Hflag & Hagain & Hlater) & Hhook).
  split; [apply Hhook; reflexivity|].
  split; [exact Hflag|]. split; [exact Hagain|exact Hlater].
Defined.

(** C9.  A mode string other than ['r'] and ['w'] is accepted: when the
    connect hook returns, the constructor returns an open stream without
    having fetched any row (its only store operation is the connect, and
    no cursor is assigned).  The stream is neither readable nor writable,
    and every read-style operation and [write] raise the
    unsupported-operation error, which is not the closed-stream error.
    [flush] checks no mode and goes to its hook. *)
Theorem unknown_mode_is_accepted {B} {H : Hooks B} (env : Session) (b b' : B)
        (table mode : string) :
  mode <> "r" -> mode <> "w" ->
  _db_connect (mkStream table mode (now env) (gethostname env) (getpid env)
                        false None b []) = (Return tt, b') ->
  let self := mkStream table mode (now env) (gethostname env) (getpid env)
                       false None b' [CallConnect] in
  DatabaseStream.__init__ env b table mode = (Return tt, self) /\
  (CallFetch ∉ calls self) /\
  DatabaseStream.readable self = false /\
  DatabaseStream.writable self = false /\
  (forall op, run_op op self
              = (Raise (UnsupportedOperation "Stream is not readable."), self))
  /\
  (forall s, DatabaseStream.write s self
             = (Raise (UnsupportedOperation "Stream is not writable."), self))
  /\
  (forall msg, is_ClosedStreamError (UnsupportedOperation msg) = false) /\
  DatabaseStream.flush self = DatabaseStream.invoke CallFlush _flush self.
Proof.
  intros Hr Hw Hconnect self.
  apply String.eqb_neq in Hr. apply String.eqb_neq in Hw.
  assert (Hnr : DatabaseStream.readable self = false)
    by (unfold DatabaseStream.readable; simpl; rewrite Hr; reflexivity).
  assert (Hnw : DatabaseStream.writable self = false)
    by (unfold DatabaseStream.writable; simpl; rewrite Hw; reflexivity).
  split.
  { unfold DatabaseStream.__init__, bind, get_self, ret.
    unfold DatabaseStream.invoke at 1. rewrite Hconnect.
    unfold after_call. simpl. fold self. rewrite Hnr. reflexivity. }
  split.
  { simpl. apply not_elem_of_cons. split; [discriminate|apply not_elem_of_nil]. }
  split; [exact Hnr|]. split; [exact Hnw|].
  split.
  { intros op. destruct op; unfold_methods; simpl; rewrite Hnr; reflexivity. }
  split.
  { intros s. unfold_methods. simpl. rewrite Hnw. reflexivity. }
  split; [reflexivity|].
  unfold_methods. reflexivity.
Qed.

Lemma unknown_mode_is_accepted_witness :
  let self := mkStream "stdin_stream" "a" (now env0) (gethostname env0)
                       (getpid env0) false None
                       (mkConnection "test.db" stdin_two true true)
                       [CallConnect] in
  Sqlite.__init__ env0 stdin_two "test.db" "stdin_stream" "a"
  = (Return tt, self) /\
  run_op (OpRead (-1)) self
  = (Raise (UnsupportedOperation "Stream is not readable."), self) /\
  DatabaseStream.write "text" self
  = (Raise (UnsupportedOperation "Stream is not writable."), self).
Proof.
  destruct (@unknown_mode_is_accepted _ Sqlite.hooks env0
              (mkConnection "test.db" stdin_two false false)
              (mkConnection "test.db" stdin_two true true)
              "stdin_stream" "a"
              ltac:(discriminate) ltac:(discriminate) eq_refl)
    as (Hinit & _ & _ & _ & Hread & Hwrite & _).
  split; [exact Hinit|]. split; [apply Hread|apply Hwrite].
Defined.

(** C4.  After [close] the guarded methods ([write], [flush], [read],
    [readline], [readlines], advancing the iterator, entering a scope)
    raise the closed-stream error.  [__iter__] has no closed guard: on a
    closed reader it raises the unsupported-operation error instead. *)
Theorem iter_after_close_is_unsupported :
  let self := snd (DatabaseStream.close
                     (opened env0 stdin_two "stdin_stream" "r")) in
  _closed self = true /\
  call (MReadOp OpIter) self
  = (Raise (UnsupportedOperation "Stream is not readable."), self) /\
  is_ClosedStreamError (UnsupportedOperation "Stream is not readable.")
  = false /\
  call (MReadOp OpNext) self = (Raise ClosedStreamError, self) /\
  call (MReadOp (OpRead (-1))) self = (Raise ClosedStreamError, self) /\
  call (MReadOp (OpReadline (-1))) self = (Raise ClosedStreamError, self) /\
  call (MReadOp (OpReadlines (-1))) self = (Raise ClosedStreamError, self) /\
  call (MWrite "text") self = (Raise ClosedStreamError, self) /\
  call MFlush self = (Raise ClosedStreamError, self).
Proof. vm_compute. repeat split; reflexivity. Qed.

(** The same on any closed stream, of any subclass. *)
Lemma iter_on_closed_stream {B} {H : Hooks B} (self : Stream B) :
  _closed self = true ->
  run_op OpIter self
  = (Raise (UnsupportedOperation "Stream is not readable."), self).
Proof.
  intros Hc. unfold_methods. rewrite (readable_closed self Hc). reflexivity.
Qed.

(** The abstract class cannot be constructed: its connect hook raises. *)
Example abstract_class_is_not_constructible :
  fst (@DatabaseStream.__init__ unit (abstract_hooks unit) env0 tt
         "stdin_stream" "r")
  = Raise (NotImplementedError "Subclass must implement _db_connect()").
Proof. reflexivity. Qed.

(** Scenario E of the test plan. *)
Example scenario_E :
  let s0 := opened env0 hello_world "stdin_stream" "r" in
  let '(r, s1) := DatabaseStream.readline 5 s0 in
  r = Return "Hello" /\
  (rows <$> Sqlite.table_of s1)
  = Some [ mkTableRow 1 "Hello World" (Some 1700000000) (Some "host")
                      (Some 4242) ].
Proof. vm_compute. split; reflexivity. Qed.

(** Scenario B of the test plan. *)
Example scenario_B :
  let s0 := opened env0 stdout_empty "stdout_stream" "w" in
  let '(_, s1) := call_all [MWrite "Line1 stdout"; MWrite "Line2 stdout";
                            MFlush; MClose] s0 in
  (rows <$> Sqlite.table_of s1)
  = Some [ mkTableRow 1 "Line1 stdout" (Some 1700000000) (Some "host")
                      (Some 4242);
           mkTableRow 2 "Line2 stdout" (Some 1700000000) (Some "host")
                      (Some 4242) ] /\
  calls s1 = [CallConnect; CallWrite "Line1 stdout";
              CallWrite "Line2 stdout"; CallFlush; CallClose].
Proof. vm_compute. split; reflexivity. Qed.

(** * Further properties of the methods *)

(** ** What every method keeps *)

Section Keeping.

Context {S : Type} (R : S -> S -> Prop).
Hypothesis R_refl : forall s, R s s.
Hypothesis R_trans : forall s1 s2 s3, R s1 s2 -> R s2 s3 -> R s1 s3.

Lemma keeps_ret {A} (a : A) : keeps R (ret a).
Proof. intros s. apply R_refl. Qed.

Lemma keeps_raise {A} e : keeps R (@raise S A e).
Proof. intros s. apply R_refl. Qed.

Lemma keeps_get_self : keeps R get_self.
Proof. intros s. apply R_refl. Qed.

Lemma keeps_update f : (forall s, R s (f s)) -> keeps R (update f).
Proof. intros Hf s. apply Hf. Qed.

Lemma keeps_bind {A A'} (m : M S A) (k : A -> M S A') :
  keeps R m -> (forall a, keeps R (k a)) -> keeps R (bind m k).
Proof.
  intros Hm Hk s. unfold bind. specialize (Hm s).
  destruct (m s) as [[a|e] s1]; simpl in *; [|exact Hm].
  eapply R_trans; [exact Hm|apply Hk].
Qed.

Lemma keeps_lift_value {A} (f : A -> Value) (m : M S A) :
  keeps R m -> keeps R (lift_value f m).
Proof. intros Hm. apply keeps_bind; [exact Hm|intros a; apply keeps_ret]. Qed.

End Keeping.

Section KeepingMethods.

Context {B : Type} {H : Hooks B} (R : Stream B -> Stream B -> Prop).
Hypothesis R_refl : forall s, R s s.
Hypothesis R_trans : forall s1 s2 s3, R s1 s2 -> R s2 s3 -> R s1 s3.
Hypothesis R_closed : forall s v, R s (set_closed v s).
Hypothesis R_iterator : forall s it, R s (set_row_iterator it s).
Hypothesis R_connect : keeps R (DatabaseStream.invoke CallConnect _db_connect).
Hypothesis R_close : keeps R (DatabaseStream.invoke CallClose _db_close).
Hypothesis R_flush : keeps R (DatabaseStream.invoke CallFlush _flush).
Hypothesis R_fetch :
  keeps R (DatabaseStream.invoke CallFetch _fetch_unconsumed).
Hypothesis R_write : forall text,
  keeps R (DatabaseStream.invoke (CallWrite text)
             (fun self => _write_record self text)).
Hypothesis R_mark : forall rid,
  keeps R (DatabaseStream.invoke (CallMark rid)
             (fun self => _mark_consumed self rid)).

Ltac keeps_step :=
  cbv zeta;
  lazymatch goal with
  | |- keeps _ (ret _) => apply keeps_ret; assumption
  | |- keeps _ (raise _) => apply keeps_raise; assumption
  | |- keeps _ get_self => apply keeps_get_self; assumption
  | |- keeps _ (update _) => apply keeps_update; intros; auto
  | |- keeps _ (bind _ _) => apply keeps_bind; [assumption| |intros ?]
  | |- keeps _ (lift_value _ _) =>
      apply keeps_lift_value; [assumption|assumption|]
  | |- keeps _ (DatabaseStream.invoke CallConnect _) => apply R_connect
  | |- keeps _ (DatabaseStream.invoke CallClose _) => apply R_close
  | |- keeps _ (DatabaseStream.invoke CallFlush _) => apply R_flush
  | |- keeps _ (DatabaseStream.invoke CallFetch _) => apply R_fetch
  | |- keeps _ (DatabaseStream.invoke (CallWrite _) _) => apply R_write
  | |- keeps _ (DatabaseStream.invoke (CallMark _) _) => apply R_mark
  | |- keeps _ (if ?b then _ else _) => destruct b
  | |- keeps _ (match ?x with _ => _ end) => destruct x
  end.

Lemma keeps_check_closed : keeps R DatabaseStream.check_closed.
Proof. unfold DatabaseStream.check_closed. repeat keeps_step. Qed.

Lemma keeps_check_readable : keeps R DatabaseStream.check_readable.
Proof. unfold DatabaseStream.check_readable. repeat keeps_step. Qed.

Lemma keeps_row_iterator : keeps R DatabaseStream.row_iterator.
Proof. unfold DatabaseStream.row_iterator. repeat keeps_step. Qed.

Lemma keeps_read_loop size it :
  forall acc tot, keeps R (DatabaseStream.read_loop size it acc tot).
Proof.
  induction it as [|row it IH]; intros acc tot;
    cbn [DatabaseStream.read_loop]; repeat keeps_step. apply IH.
Qed.

Lemma keeps_readlines_loop hint it :
  forall acc tot, keeps R (DatabaseStream.readlines_loop hint it acc tot).
Proof.
  induction it as [|row it IH]; intros acc tot;
    cbn [DatabaseStream.readlines_loop]; repeat keeps_step. apply IH.
Qed.

Lemma keeps_close : keeps R DatabaseStream.close.
Proof. unfold DatabaseStream.close. repeat keeps_step. Qed.

Lemma keeps_call (m : Method) : keeps R (call m).
Proof.
  pose proof keeps_check_closed. pose proof keeps_check_readable.
  pose proof keeps_row_iterator. pose proof keeps_close.
  destruct m as [s| |op| | |]; [| |destruct op| | |];
    unfold call, run_op, DatabaseStream.write, DatabaseStream.flush,
      DatabaseStream.read, DatabaseStream.readline, DatabaseStream.readlines,
      DatabaseStream.__iter__, DatabaseStream.__next__,
      DatabaseStream.__enter__, DatabaseStream.__exit__;
    repeat lazymatch goal with
           | |- keeps _ DatabaseStream.check_closed => assumption
           | |- keeps _ DatabaseStream.check_readable => assumption
           | |- keeps _ DatabaseStream.row_iterator => assumption
           | |- keeps _ DatabaseStream.close => assumption
           | |- keeps _ (DatabaseStream.read_loop _ _ _ _) =>
               apply keeps_read_loop
           | |- keeps _ (DatabaseStream.readlines_loop _ _ _ _) =>
               apply keeps_readlines_loop
           | _ => keeps_step
           end.
Qed.

Lemma keeps_call_all (ms : list Method) :
  forall s, R s (snd (call_all ms s)).
Proof.
  induction ms as [|m ms IH]; intros s; [apply R_refl|].
  simpl. pose proof (keeps_call m s) as Hm.
  destruct (call m s) as [r s1]. specialize (IH s1).
  destruct (call_all ms s1) as [rs s2]. simpl in *.
  eapply R_trans; eassumption.
Qed.

Lemma keeps_init env b table mode :
  R (mkStream table mode (now env) (gethostname env) (getpid env)
              false None b [])
    (snd (DatabaseStream.__init__ env b table mode)).
Proof.
  unfold DatabaseStream.__init__.
  match goal with |- R ?s (snd (?m ?s)) => enough (keeps R m) as Hk
                                             by apply Hk end.
  repeat keeps_step.
Qed.

End KeepingMethods.

Lemma keeps_identity_invoke {B} {A} (c : Call)
      (hook : Stream B -> Outcome A * B) :
  keeps (fun s s' : Stream B => identity_of s' = identity_of s)
        (DatabaseStream.invoke c hook).
Proof.
  intros s. unfold DatabaseStream.invoke. destruct (hook s). reflexivity.
Qed.

(** X1.  The table name, the mode and the session triple (timestamp, host,
    pid) are those the constructor received and read, and no method of any
    subclass changes them, whatever it answers. *)
Theorem identity_is_fixed_for_life {B} {H : Hooks B} (env : Session) (b : B)
        (table mode : string) (self : Stream B) (ms : list Method) :
  identity_of (snd (DatabaseStream.__init__ env b table mode))
  = (table, mode, now env, gethostname env, getpid env) /\
  identity_of (snd (call_all ms self)) = identity_of self.
Proof.
  split.
  - apply (keeps_init (fun s s' : Stream B => identity_of s' = identity_of s));
      try reflexivity; try (intros; apply keeps_identity_invoke).
    intros s1 s2 s3 H12 H23. congruence.
  - apply (keeps_call_all
             (fun s s' : Stream B => identity_of s' = identity_of s));
      try reflexivity; try (intros; apply keeps_identity_invoke).
    intros s1 s2 s3 H12 H23. congruence.
Qed.

(** X2.  An operation that is refused touches nothing: [write] on a stream
    that is not writable, and every read-style operation on a stream that
    is not readable, raise and leave the object, its cursor and the store
    as they were.  The error is the closed-stream error when the stream is
    closed, except for [__iter__], and the unsupported-operation error
    otherwise. *)
Theorem refused_operations_touch_nothing {B} {H : Hooks B} (self : Stream B) :
  (DatabaseStream.writable self = false ->
   forall s,
     DatabaseStream.write s self
     = (Raise (if _closed self then ClosedStreamError
               else UnsupportedOperation "Stream is not writable."), self))
  /\
  (DatabaseStream.readable self = false ->
   forall op,
     run_op op self
     = (Raise (if _closed self
               then match op with
                    | OpIter => UnsupportedOperation "Stream is not readable."
                    | _ => ClosedStreamError
                    end
               else UnsupportedOperation "Stream is not readable."), self)).
Proof.
  split.
  - intros Hw s. unfold_methods. destruct (_closed self) eqn:Hc;
      [reflexivity|]. simpl. rewrite Hw. reflexivity.
  - intros Hr op. destruct op; unfold_methods;
      destruct (_closed self) eqn:Hc; simpl; rewrite ?Hr; reflexivity.
Qed.

Lemma read_loop_is_readlines_loop {B} {H : Hooks B} size it :
  forall acc tot (self : Stream B),
    DatabaseStream.read_loop size it acc tot self
    = DatabaseStream.readlines_loop size it acc tot self.
Proof.
  induction it as [|row it IH]; intros acc tot self; [reflexivity|].
  cbn [DatabaseStream.read_loop DatabaseStream.readlines_loop].
  unfold bind. simpl.
  destruct (DatabaseStream.invoke _ _ _) as [[[]|e] s1]; [|reflexivity].
  destruct ((0 <=? size) && _); [reflexivity|apply IH].
Qed.

(** X3.  For any subclass and any stream, [read(n)] is [readlines(n)]
    joined: both consume the same rows, leave the same object, raise the
    same error if any, and the string [read] returns is the concatenation
    of the list [readlines] returns. *)
Theorem read_is_joined_readlines {B} {H : Hooks B} (self : Stream B) (n : Z) :
  DatabaseStream.read n self
  = (lines <-- DatabaseStream.readlines n ;; ret (String.concat "" lines)) self.
Proof.
  unfold DatabaseStream.read, DatabaseStream.readlines, bind.
  destruct (DatabaseStream.check_closed self) as [[[]|e] s1]; [|reflexivity].
  destruct (DatabaseStream.check_readable s1) as [[[]|e] s2]; [|reflexivity].
  destruct (DatabaseStream.row_iterator s2) as [[it|e] s3]; [|reflexivity].
  rewrite read_loop_is_readlines_loop. reflexivity.
Qed.

(** X4.  For any subclass, while the cursor is not exhausted [__next__]
    and [readline()] without a limit are the same operation.  On an
    exhausted cursor of a readable stream they differ only in how they say
    so: [readline] returns the empty string, [__next__] raises
    [StopIteration]; neither changes the object. *)
Theorem next_is_readline_until_exhausted {B} {H : Hooks B} (self : Stream B)
        (limit : Z) :
  limit < 0 ->
  match _row_iterator self with
  | Some [] =>
      DatabaseStream.readable self = true ->
      DatabaseStream.readline limit self = (Return "", self) /\
      DatabaseStream.__next__ self = (Raise StopIteration, self)
  | _ => DatabaseStream.__next__ self = DatabaseStream.readline limit self
  end.
Proof.
  intros Hl. apply Z.leb_gt in Hl.
  destruct (_row_iterator self) as [[|row it]|] eqn:Hit.
  - intros Hr. assert (Hc : _closed self = false).
    { unfold DatabaseStream.readable in Hr.
      destruct (_closed self); [|reflexivity].
      rewrite andb_false_r in Hr. discriminate. }
    unfold_methods. rewrite Hc. simpl. rewrite Hr. simpl. rewrite Hit.
    split; reflexivity.
  - unfold_methods.
    destruct (_closed self); [reflexivity|]. simpl.
    destruct (DatabaseStream.readable self); [|reflexivity]. simpl.
    rewrite Hit. simpl.
    destruct (DatabaseStream.invoke _ _ _) as [[[]|e] s1]; [|reflexivity].
    rewrite Hl. reflexivity.
  - unfold_methods.
    destruct (_closed self); [reflexivity|]. simpl.
    destruct (DatabaseStream.readable self); [|reflexivity]. simpl.
    rewrite Hit. reflexivity.
Qed.

Lemma next_is_readline_until_exhausted_witness :
  DatabaseStream.__next__ (opened env0 stdin_two "stdin_stream" "r")
  = DatabaseStream.readline (-1) (opened env0 stdin_two "stdin_stream" "r").
Proof.
  apply (next_is_readline_until_exhausted
           (opened env0 stdin_two "stdin_stream" "r") (-1)).
  reflexivity.
Defined.

(** ** Readers of the SQLite subclass *)

Lemma set_row_iterator_same {B} (self : Stream B) it :
  _row_iterator self = Some it -> set_row_iterator it self = self.
Proof.
  destruct self. simpl. intros ->. reflexivity.
Qed.

Lemma next_spec env self it t :
  reader_inv env self it t ->
  match it with
  | [] => DatabaseStream.__next__ self = (Raise StopIteration, self)
  | row :: it' =>
      exists s1,
        DatabaseStream.__next__ self = (Return (content row), s1) /\
        DatabaseStream.invoke (CallMark (id row))
          (fun self => _mark_consumed self (id row))
          (set_row_iterator it' self) = (Return tt, s1) /\
        reader_inv env s1 it'
          (Sqlite.update_where_id (now env) (gethostname env) (getpid env)
                                  (id row) t)
  end.
Proof.
  intros Hinv. pose proof (reader_readable env self it t Hinv) as Hr.
  pose proof Hinv as (Hc & _ & _ & _ & _ & Hit & _).
  unfold_methods. rewrite Hc. simpl. rewrite Hr. simpl. rewrite Hit.
  destruct it as [|row it']; [reflexivity|]. simpl.
  destruct (mark_step env self _ t it' (id row) Hinv)
    as (s1 & Hstep & Hinv1 & _).
  exists s1. pose proof Hstep as Hstep'. simpl in Hstep'. rewrite Hstep'.
  split; [reflexivity|]. split; [reflexivity|exact Hinv1].
Qed.

Lemma next_until_stop_spec env it :
  forall self t acc tot fuel,
    reader_inv env self it t ->
    (length it < fuel)%nat ->
    next_until_stop fuel acc self
    = (lines <-- DatabaseStream.readlines_loop (-1) it acc tot ;;
       ret (Some lines)) self.
Proof.
  induction it as [|row it' IH]; intros self t acc tot fuel Hinv Hfuel;
    (destruct fuel as [|fuel]; [simpl in Hfuel; lia|]);
    pose proof (next_spec env self _ t Hinv) as Hnext; cbv beta iota in Hnext.
  - cbn [next_until_stop]. rewrite Hnext.
    cbn [DatabaseStream.readlines_loop]. unfold bind, update, ret.
    rewrite set_row_iterator_same by apply Hinv. reflexivity.
  - destruct Hnext as (s1 & Hnext & Hstep & Hinv1).
    cbn [next_until_stop]. rewrite Hnext.
    cbn [DatabaseStream.readlines_loop]. unfold bind at 1 2, update at 1.
    unfold bind at 1. rewrite Hstep. simpl.
    apply (IH s1 _ _ _ fuel Hinv1). simpl in Hfuel. lia.
Qed.

(** X5.  Iterating over an open reader ([__iter__], then [__next__] until
    [StopIteration]) with at least one step more than the cursor holds
    rows ends, yields the contents of all the rows left, in order, and
    leaves the object and the store exactly as [readlines()] without a
    hint does. *)
Theorem iteration_is_readlines env self it t fuel :
  reader_inv env self it t ->
  (length it < fuel)%nat ->
  for_loop fuel self
  = (lines <-- DatabaseStream.readlines (-1) ;; ret (Some lines)) self /\
  fst (for_loop fuel self) = Return (Some (map content it)).
Proof.
  intros Hinv Hfuel.
  pose proof (reader_readable env self it t Hinv) as Hr.
  pose proof Hinv as (Hc & _ & _ & _ & _ & Hit & _).
  assert (Heq : for_loop fuel self
                = (lines <-- DatabaseStream.readlines (-1) ;;
                   ret (Some lines)) self).
  { unfold for_loop, DatabaseStream.readlines. unfold_methods.
    repeat (progress (rewrite ?Hc, ?Hr, ?Hit; simpl)).
    rewrite (next_until_stop_spec env it self t [] 0 fuel Hinv Hfuel).
    reflexivity. }
  split; [exact Heq|]. rewrite Heq.
  destruct (run_op_spec env (OpReadlines (-1)) self it t Hinv)
    as (chunk & rest & s' & Hsplit & Hrun & Hcons & _).
  simpl in Hrun, Hcons.
  apply (lift_value_return VList _ _ _ _ ltac:(congruence)
           (map content chunk)) in Hrun; [|reflexivity].
  unfold bind. rewrite Hrun. simpl.
  destruct Hcons as (Hneg & _). rewrite (Hneg ltac:(lia)) in Hsplit.
  rewrite app_nil_r in Hsplit. subst chunk. reflexivity.
Qed.

Lemma iteration_is_readlines_witness :
  fst (for_loop 3 (opened env0 stdin_two "stdin_stream" "r"))
  = Return (Some ["Input1"; "Input2"]).
Proof.
  assert (Hinv : reader_inv env0 (opened env0 stdin_two "stdin_stream" "r")
                   [ {| id := 1; content := "Input1" |};
                     {| id := 2; content := "Input2" |} ]
                   (mkTable [ mkTableRow 1 "Input1" None None None;
                              mkTableRow 2 "Input2" None None None ] 2))
    by (repeat split; reflexivity).
  apply (iteration_is_readlines env0 _ _ _ 3%nat Hinv). simpl. lia.
Defined.

(** X6.  On an open reader [readlines(hint)] returns the contents of the
    rows it consumed, one list element per row and in cursor order.  It
    consumes everything for [hint < 0]; for [hint >= 0] it stops after the
    first row that brings the total length to [hint], so at least one row
    is consumed whenever the cursor is not exhausted, also for [hint = 0];
    on an exhausted cursor it returns the empty list. *)
Theorem readlines_consumes_whole_records env self it t hint :
  reader_inv env self it t ->
  exists chunk rest s',
    it = chunk ++ rest /\
    DatabaseStream.readlines hint self = (Return (map content chunk), s') /\
    _row_iterator s' = Some rest /\
    Sqlite.table_of s' = Some (mark_all env chunk t) /\
    calls s' = calls self ++ marks chunk /\
    stops_at hint chunk rest /\
    (hint < 0 -> chunk = it) /\
    (it = [] -> chunk = []) /\
    (it <> [] -> chunk <> []).
Proof.
  intros Hinv.
  destruct (run_op_spec env (OpReadlines hint) self it t Hinv)
    as (chunk & rest & s' & Hsplit & Hrun & Hstop & Hinv' & Hcalls).
  exists chunk, rest, s'. simpl in Hrun, Hstop.
  apply (lift_value_return VList _ _ _ _ ltac:(congruence)
           (map content chunk)) in Hrun; [|reflexivity].
  destruct Hinv' as (_ & _ & _ & _ & _ & Hit & _ & _ & Htab).
  split; [exact Hsplit|]. split; [exact Hrun|]. split; [exact Hit|].
  split; [exact Htab|]. split; [exact Hcalls|]. split; [exact Hstop|].
  destruct Hstop as (Hneg & _ & _ & Hnil).
  split; [|split].
  - intros Hs. rewrite Hsplit, (Hneg Hs). symmetry. apply app_nil_r.
  - intros ->. symmetry in Hsplit. apply app_eq_nil in Hsplit as [-> _].
    reflexivity.
  - intros Hne ->. rewrite (Hnil eq_refl) in Hsplit. contradiction.
Qed.

Lemma readlines_consumes_whole_records_witness :
  exists chunk rest s',
    [ {| id := 1; content := "Input1" |}; {| id := 2; content := "Input2" |} ]
    = chunk ++ rest /\
    DatabaseStream.readlines 7 (opened env0 stdin_two "stdin_stream" "r")
    = (Return (map content chunk), s') /\
    stops_at 7 chunk rest.
Proof.
  assert (Hinv : reader_inv env0 (opened env0 stdin_two "stdin_stream" "r")
                   [ {| id := 1; content := "Input1" |};
                     {| id := 2; content := "Input2" |} ]
                   (mkTable [ mkTableRow 1 "Input1" None None None;
                              mkTableRow 2 "Input2" None None None ] 2))
    by (repeat split; reflexivity).
  destruct (readlines_consumes_whole_records env0 _ _ _ 7 Hinv)
    as (chunk & rest & s' & Hsplit & Hrun & _ & _ & _ & Hstop & _).
  exists chunk, rest, s'. split; [exact Hsplit|]. split; [exact Hrun|].
  exact Hstop.
Defined.

Lemma length_append_string (a b : string) :
  String.length (a ++ b)%string = (String.length a + String.length b)%nat.
Proof. induction a as [|c a IH]; simpl; [reflexivity|]. rewrite IH. reflexivity. Qed.

Lemma len_joined (chunk : list Row) :
  len (String.concat "" (map content chunk)) = total_len chunk.
Proof.
  unfold len. induction chunk as [|x chunk IH]; [reflexivity|].
  destruct chunk as [|y chunk].
  - change (String.concat "" (map content [x])) with (content x).
    cbn [total_len foldr]. unfold len. lia.
  - change (String.concat "" (map content (x :: y :: chunk)))
      with (content x ++ "" ++ String.concat "" (map content (y :: chunk)))%string.
    rewrite length_append_string.
    change ("" ++ String.concat "" (map content (y :: chunk)))%string
      with (String.concat "" (map content (y :: chunk))).
    cbn [total_len foldr] in *. unfold len in *. lia.
Qed.

(** X7.  [read(size)] with [size >= 0] on an open reader returns at least
    [size] characters unless it emptied the cursor; and it stops as soon
    as it can: without the last record it consumed, what it returns would
    be shorter than [size] (when it consumed more than one record). *)
Theorem read_length_bounds env self it t size :
  reader_inv env self it t ->
  0 <= size ->
  exists chunk rest out s',
    it = chunk ++ rest /\
    DatabaseStream.read size self = (Return out, s') /\
    _row_iterator s' = Some rest /\
    len out = total_len chunk /\
    (rest <> [] -> size <= len out) /\
    (forall p last, chunk = p ++ [last] -> p <> [] ->
                    len out - len (content last) < size).
Proof.
  intros Hinv Hsize.
  destruct (run_op_spec env (OpRead size) self it t Hinv)
    as (chunk & rest & s' & Hsplit & Hrun & Hstop & Hinv' & _).
  simpl in Hrun, Hstop.
  apply (lift_value_return VStr _ _ _ _ ltac:(congruence)
           (String.concat "" (map content chunk))) in Hrun; [|reflexivity].
  exists chunk, rest, (String.concat "" (map content chunk)), s'.
  destruct Hstop as (_ & Hend & Hmin & _).
  split; [exact Hsplit|]. split; [exact Hrun|]. split; [apply Hinv'|].
  rewrite len_joined. split; [reflexivity|]. split.
  - intros Hrest. destruct (Hend Hsize) as [Hr|Hge]; [contradiction|exact Hge].
  - intros p last -> Hp.
    pose proof (Hmin Hsize p [last] eq_refl Hp ltac:(discriminate)) as Hlt.
    rewrite total_len_app. simpl. lia.
Qed.

Lemma read_length_bounds_witness :
  exists chunk rest out s',
    [ {| id := 1; content := "Input1" |}; {| id := 2; content := "Input2" |} ]
    = chunk ++ rest /\
    DatabaseStream.read 7 (opened env0 stdin_two "stdin_stream" "r")
    = (Return out, s') /\
    len out = total_len chunk /\
    (rest <> [] -> 7 <= len out).
Proof.
  assert (Hinv : reader_inv env0 (opened env0 stdin_two "stdin_stream" "r")
                   [ {| id := 1; content := "Input1" |};
                     {| id := 2; content := "Input2" |} ]
                   (mkTable [ mkTableRow 1 "Input1" None None None;
                              mkTableRow 2 "Input2" None None None ] 2))
    by (repeat split; reflexivity).
  destruct (read_length_bounds env0 _ _ _ 7 Hinv ltac:(lia))
    as (chunk & rest & out & s' & Hsplit & Hrun & _ & Hlen & Hge & _).
  exists chunk, rest, out, s'. split; [exact Hsplit|]. split; [exact Hrun|].
  split; [exact Hlen|exact Hge].
Defined.

(** ** The connection of the SQLite subclass *)

(** X8.  [flush] checks no mode: on any open SQLite stream, reader or
    writer, whose connection is open it returns normally after one commit,
    and the database, the cursor of the snapshot and the connection are as
    before. *)
Theorem flush_changes_no_data (self : Stream Connection) :
  _closed self = false ->
  _conn (backend self) = true ->
  exists s',
    DatabaseStream.flush self = (Return tt, s') /\
    backend s' = backend self /\
    _row_iterator s' = _row_iterator self /\
    _closed s' = false /\
    calls s' = calls self ++ [CallFlush].
Proof.
  intros Hc Hco. unfold_methods. rewrite Hc. simpl.
  unfold DatabaseStream.invoke. simpl. rewrite Hc. simpl.
  unfold Sqlite.commit. rewrite Hco. simpl.
  eexists. split; [reflexivity|]. simpl. repeat split. exact Hc.
Qed.

Lemma flush_changes_no_data_witness :
  exists s',
    DatabaseStream.flush (opened env0 stdin_two "stdin_stream" "r")
    = (Return tt, s') /\
    backend s' = backend (opened env0 stdin_two "stdin_stream" "r").
Proof.
  destruct (flush_changes_no_data (opened env0 stdin_two "stdin_stream" "r")
              eq_refl eq_refl) as (s' & Hrun & Hb & _).
  exists s'. split; [exact Hrun|exact Hb].
Defined.

Lemma sqlite_exit (self : Stream Connection) :
  exists s',
    DatabaseStream.__exit__ self = (Return false, s') /\
    s' = snd (DatabaseStream.close self) /\
    _closed s' = true /\
    database (backend s') = database (backend self) /\
    (_closed self = false ->
     _conn (backend s') = false /\ _cursor (backend s') = false).
Proof.
  unfold_methods. destruct (_closed self) eqn:Hc; simpl.
  - exists self. repeat split; try assumption; discriminate.
  - unfold DatabaseStream.invoke. simpl.
    eexists. split; [reflexivity|]. simpl. repeat split.
Qed.

(** X9.  Scoped use of a SQLite stream.  Entering a closed stream raises
    the closed-stream error and the body does not run.  Otherwise the body
    runs on the stream as it is, and on the way out the stream is closed
    whatever the body did: the statement yields what the body returned,
    or raises what the body raised (nothing is suppressed), and leaves the
    object as [close] leaves the object the body left, with the database
    as the body left it. *)
Theorem with_block_always_closes {A} (body : M (Stream Connection) A)
        (self : Stream Connection) :
  with_block body self
  = (if _closed self then (Raise ClosedStreamError, self)
     else (match fst (body self) with
           | Return a => Return (Some a)
           | Raise e => Raise e
           end,
           snd (DatabaseStream.close (snd (body self))))) /\
  _closed (snd (with_block body self)) = true /\
  (_closed self = false ->
   database (backend (snd (with_block body self)))
   = database (backend (snd (body self)))).
Proof.
  assert (Heq : with_block body self
                = (if _closed self then (Raise ClosedStreamError, self)
                   else (match fst (body self) with
                         | Return a => Return (Some a)
                         | Raise e => Raise e
                         end,
                         snd (DatabaseStream.close (snd (body self)))))).
  { unfold with_block, DatabaseStream.__enter__,
      DatabaseStream.check_closed, bind, get_self, raise, ret.
    destruct (_closed self) eqn:Hc; [reflexivity|].
    destruct (body self) as [r s1]. simpl.
    destruct (sqlite_exit s1) as (s2 & Hexit & -> & _). rewrite Hexit.
    destruct r; reflexivity. }
  split; [exact Heq|]. rewrite Heq.
  destruct (_closed self) eqn:Hc; simpl.
  - split; [exact Hc|discriminate].
  - destruct (sqlite_exit (snd (body self))) as (s2 & _ & -> & Hcl & Hdb & _).
    split; [exact Hcl|]. intros _. exact Hdb.
Qed.

(** ** Tables that are not there, rows that are not there *)

(** X10.  Let the table name be an identifier that resolves to no table
    of the database, in whatever case it is written.  Constructing a
    reader then fails with the store's error, at its fetch.  A writer
    whose constructor returns has executed nothing but the connect, so
    nothing has failed yet; the error shows at its first [write], which
    raises it and leaves the database as it was and the stream open. *)
Theorem missing_table_shows_at_first_statement env file path tn text :
  Sqlite.plain_name tn = true ->
  Sqlite.resolve file tn = None ->
  fst (Sqlite.__init__ env file path tn "w") = Return tt ->
  (exists msg, fst (Sqlite.__init__ env file path tn "r")
               = Raise (OperationalError msg)) /\
  let writer := snd (Sqlite.__init__ env file path tn "w") in
  calls writer = [CallConnect] /\
  (exists msg, fst (DatabaseStream.write text writer)
               = Raise (OperationalError msg)) /\
  database (backend (snd (DatabaseStream.write text writer))) = file /\
  _closed (snd (DatabaseStream.write text writer)) = false.
Proof.
  intros _ Hnone _.
  unfold Sqlite.__init__, DatabaseStream.__init__, DatabaseStream.invoke,
    bind, get_self, update, ret. simpl.
  unfold Sqlite.execute. simpl. rewrite Hnone. simpl.
  split; [eexists; reflexivity|]. split; [reflexivity|].
  unfold_methods. simpl.
  unfold DatabaseStream.invoke, Sqlite.execute. simpl. rewrite Hnone. simpl.
  split; [eexists; reflexivity|]. split; reflexivity.
Qed.

Lemma missing_table_shows_at_first_statement_witness :
  (exists msg,
      fst (Sqlite.__init__ env0 stdin_two "test.db" "stdout_stream" "r")
      = Raise (OperationalError msg)) /\
  (exists msg,
      fst (DatabaseStream.write "text"
             (snd (Sqlite.__init__ env0 stdin_two "test.db" "stdout_stream"
                     "w")))
      = Raise (OperationalError msg)).
Proof.
  destruct (missing_table_shows_at_first_statement env0 stdin_two "test.db"
              "stdout_stream" "text" ltac:(reflexivity)
              ltac:(vm_compute; reflexivity) ltac:(reflexivity))
    as (Hr & _ & Hwrite & _).
  split; [exact Hr|exact Hwrite].
Defined.

Lemma stamp_ids_absent env ids (l : list TableRow) :
  (forall i, i ∈ ids -> i ∉ row_id <$> l) -> stamp_ids env ids l = l.
Proof.
  intros Habs. unfold stamp_ids. rewrite <- (map_id l) at 2.
  apply map_ext_in. intros r Hr.
  rewrite bool_decide_eq_false_2; [reflexivity|].
  intros Hin. apply (Habs _ Hin). apply list_elem_of_fmap_2.
  apply list_elem_of_In. exact Hr.
Qed.

(** X15.  A row of the snapshot that is no longer in the table when it is
    read (another connection removed it) is delivered all the same: the
    UPDATE matches no record, which is no error, and the table is left as
    it is. *)
Theorem vanished_row_is_still_delivered env self row it' t limit :
  reader_inv env self (row :: it') t ->
  id row ∉ row_id <$> rows t ->
  exists s',
    DatabaseStream.readline limit self
    = (Return (if 0 <=? limit then slice_to limit (content row)
               else content row), s') /\
    _row_iterator s' = Some it' /\
    Sqlite.table_of s' = Some t /\
    calls s' = calls self ++ [CallMark (id row)].
Proof.
  intros Hinv Habs.
  destruct (run_op_spec env (OpReadline limit) self _ t Hinv)
    as (chunk & rest & s' & Hsplit & Hrun & Hcons & Hinv' & Hcalls).
  simpl in Hcons. rewrite <- Hsplit in Hcons. simpl in Hcons. subst chunk.
  simpl in Hsplit. injection Hsplit as <-. simpl in Hrun.
  apply (lift_value_return VStr _ _ _ _ ltac:(congruence)
           (if 0 <=? limit then slice_to limit (content row)
            else content row)) in Hrun; [|reflexivity].
  exists s'. split; [exact Hrun|]. split; [apply Hinv'|].
  split; [|exact Hcalls].
  destruct Hinv' as (_ & _ & _ & _ & _ & _ & _ & _ & ->).
  rewrite mark_all_table. simpl.
  rewrite stamp_ids_absent; [destruct t; reflexivity|].
  intros i Hi. apply list_elem_of_singleton in Hi as ->. exact Habs.
Qed.

Lemma vanished_row_is_still_delivered_witness :
  let self := sees {[ "stdin_stream" :=
                        mkTable [mkTableRow 2 "Input2" None None None] 2 ]}
                   (opened env0 stdin_two "stdin_stream" "r") in
  exists s',
    DatabaseStream.readline (-1) self = (Return "Input1", s') /\
    Sqlite.table_of s'
    = Some (mkTable [mkTableRow 2 "Input2" None None None] 2).
Proof.
  assert (Hinv : reader_inv env0
                   (sees {[ "stdin_stream" :=
                              mkTable [mkTableRow 2 "Input2" None None None] 2 ]}
                         (opened env0 stdin_two "stdin_stream" "r"))
                   [ {| id := 1; content := "Input1" |};
                     {| id := 2; content := "Input2" |} ]
                   (mkTable [mkTableRow 2 "Input2" None None None] 2))
    by (repeat split; reflexivity).
  assert (Habs : 1 ∉ row_id <$> [mkTableRow 2 "Input2" None None None])
    by compute_done.
  destruct (vanished_row_is_still_delivered env0 _ _ _ _ (-1) Hinv Habs)
    as (s' & Hrun & _ & Htab & _).
  exists s'. split; [exact Hrun|exact Htab].
Defined.

(** ** Several streams on one table *)






#[global] Instance id_lt_antisymm : AntiSymm (=) id_lt.
Proof. intros a b. unfold id_lt. lia. Qed.








Lemma table_name_of_identity {B} (s s' : Stream B) :
  identity_of s' = identity_of s -> _table_name s' = _table_name s.
Proof. unfold identity_of. congruence. Qed.













(** ** What no method does to the store *)

Lemma kept_by_refl who r : kept_by who r r.
Proof. unfold kept_by. auto. Qed.

Lemma kept_by_trans who r1 r2 r3 :
  kept_by who r1 r2 -> kept_by who r2 r3 -> kept_by who r1 r3.
Proof.
  intros (Hi1 & Hc1 & H1) (Hi2 & Hc2 & H2).
  split; [congruence|]. split; [congruence|].
  destruct H2 as [->|H2]; [exact H1|right; exact H2].
Qed.

Lemma kept_by_stamped who l k :
  Forall (stamped_by who) l -> Forall2 (kept_by who) l k ->
  Forall (stamped_by who) k.
Proof.
  intros Hl Hk. induction Hk as [|r r' l k (_ & _ & Hr) Hk IH];
    [constructor|].
  apply Forall_cons in Hl as [Hs Hl].
  constructor; [|apply IH, Hl].
  destruct Hr as [->|Hr]; assumption.
Qed.

Lemma table_grows_refl who t : table_grows who t t.
Proof.
  split; [|auto]. exists (rows t), []. rewrite app_nil_r.
  split; [reflexivity|]. split; [|constructor].
  apply Forall_Forall2_diag, Forall_forall. intros r _. apply kept_by_refl.
Qed.

Lemma table_grows_trans who t1 t2 t3 :
  table_grows who t1 t2 -> table_grows who t2 t3 -> table_grows who t1 t3.
Proof.
  intros [(old1 & fresh1 & Hr1 & Hk1 & Hf1) Hn1]
         [(old2 & fresh2 & Hr2 & Hk2 & Hf2) Hn2].
  split; [|auto].
  rewrite Hr1 in Hk2.
  apply Forall2_app_inv_l in Hk2 as (k1 & k2 & Hk1' & Hk2' & ->).
  exists k1, (k2 ++ fresh2). rewrite Hr2, <- app_assoc.
  split; [reflexivity|]. split.
  - eapply Forall2_trans; [|exact Hk1|exact Hk1'].
    intros x y z. apply kept_by_trans.
  - apply Forall_app. split; [|exact Hf2].
    apply (kept_by_stamped who fresh1 k2 Hf1 Hk2').
Qed.

Lemma table_grows_update ts host pid rid t :
  table_grows (ts, host, pid) t (Sqlite.update_where_id ts host pid rid t).
Proof.
  split.
  - exists (map (Sqlite.stamp ts host pid rid) (rows t)), [].
    rewrite app_nil_r. split; [reflexivity|]. split; [|constructor].
    change (map ?f ?l) with (f <$> l). apply Forall2_fmap_r.
    apply Forall_Forall2_diag, Forall_forall. intros r _.
    unfold Sqlite.stamp, compose. destruct (row_id r =? rid).
    + split; [reflexivity|]. split; [reflexivity|]. right.
      repeat split.
    + apply kept_by_refl.
  - simpl. intros Hnd.
    replace (row_id <$> map (Sqlite.stamp ts host pid rid) (rows t))
      with (row_id <$> rows t); [exact Hnd|].
    change (map ?f ?l) with (f <$> l). rewrite <- list_fmap_compose.
    apply list_fmap_ext. intros i r _. unfold Sqlite.stamp. simpl.
    destruct (row_id r =? rid); reflexivity.
Qed.

Lemma table_grows_insert text ts host pid t :
  match Sqlite.insert_into text ts host pid t with
  | Return (_, t') => table_grows (ts, host, pid) t t'
  | Raise _ => True
  end.
Proof.
  unfold Sqlite.insert_into.
  destruct (Sqlite.max_rowid <? Sqlite.next_id t); [exact I|].
  split.
  - eexists (rows t), [_]. split; [reflexivity|]. split.
    + apply Forall_Forall2_diag, Forall_forall. intros r _.
      apply kept_by_refl.
    + constructor; [repeat split|constructor].
  - simpl. intros Hnd. rewrite fmap_app. apply NoDup_app.
    split; [exact Hnd|]. split; [|apply NoDup_singleton].
    intros i Hi Hnew. apply list_elem_of_singleton in Hnew. simpl in Hnew.
    apply list_elem_of_fmap in Hi as (r & -> & Hr).
    pose proof (max_id_bound _ _ Hr). unfold Sqlite.next_id in Hnew. lia.
Qed.

Lemma db_step_refl who tn d : db_step who tn d d.
Proof.
  split; [reflexivity|]. split; [|reflexivity].
  intros name. destruct (d !! name); constructor. apply table_grows_refl.
Qed.

Lemma db_step_trans who tn d1 d2 d3 :
  db_step who tn d1 d2 -> db_step who tn d2 d3 -> db_step who tn d1 d3.
Proof.
  intros (Hf1 & Ht1 & Hn1) (Hf2 & Ht2 & Hn2). split; [|split].
  - intros name Hne. rewrite (Hf2 name Hne). apply Hf1, Hne.
  - intros name. specialize (Ht1 name). specialize (Ht2 name).
    destruct Ht1 as [t1 t2 H12|]; inversion Ht2 as [? t3 H23|]; subst;
      constructor. eapply table_grows_trans; eassumption.
  - intros Hnone. specialize (Hn1 Hnone). subst d2. apply Hn2, Hnone.
Qed.

Lemma db_step_execute {A} who (c : Connection) tn
      (stmt : Table -> Outcome (A * Table)) :
  (forall t, match stmt t with
             | Return (_, t') => table_grows who t t'
             | Raise _ => True
             end) ->
  db_step who tn (database c) (database (snd (Sqlite.execute c tn stmt))).
Proof.
  intros Hstmt. unfold Sqlite.execute.
  destruct (negb (_conn c)); [apply db_step_refl|].
  destruct (negb (_cursor c)); [apply db_step_refl|].
  destruct (Sqlite.resolve (database c) tn) as [[name t]|] eqn:Hres;
    [|apply db_step_refl].
  apply resolve_Some in Hres as [Hname Hfold].
  specialize (Hstmt t). destruct (stmt t) as [[a t']|e];
    [|apply db_step_refl]. simpl.
  split; [|split].
  - intros name' Hne. apply lookup_insert_ne. congruence.
  - intros name'. destruct (decide (name = name')) as [<-|Hne].
    + rewrite Hname, lookup_insert_eq. constructor. exact Hstmt.
    + rewrite lookup_insert_ne by exact Hne.
      destruct (database c !! name'); constructor. apply table_grows_refl.
  - intros Hnone. exfalso.
    apply (resolve_None _ _ Hnone _ _ Hname Hfold).
Qed.

Lemma then_commit_database {A} (r : Outcome A * Connection) :
  database (snd (Sqlite.then_commit r)) = database (snd r).
Proof.
  unfold Sqlite.then_commit, Sqlite.commit.
  destruct r as [[a|e] c]; [|reflexivity].
  destruct (negb (_conn c)); reflexivity.
Qed.

Lemma store_evolves_refl s : store_evolves s s.
Proof. split; [reflexivity|apply db_step_refl]. Qed.

Lemma store_evolves_trans s1 s2 s3 :
  store_evolves s1 s2 -> store_evolves s2 s3 -> store_evolves s1 s3.
Proof.
  intros [Hi1 Hd1] [Hi2 Hd2]. split; [congruence|].
  assert (Hw : session_of s2 = session_of s1)
    by (unfold identity_of, session_of in *; congruence).
  rewrite Hw, (table_name_of_identity _ _ Hi1) in Hd2.
  eapply db_step_trans; eassumption.
Qed.

Lemma store_evolves_invoke {A} (c : Call)
      (hook : Stream Connection -> Outcome A * Connection) :
  (forall s, db_step (session_of s) (_table_name s) (database (backend s))
                     (database (snd (hook s)))) ->
  keeps store_evolves (DatabaseStream.invoke c hook).
Proof.
  intros Hhook s. specialize (Hhook s). unfold DatabaseStream.invoke.
  destruct (hook s) as [r b]. split; [reflexivity|exact Hhook].
Qed.

Lemma store_evolves_set_closed s v : store_evolves s (set_closed v s).
Proof. split; [reflexivity|apply db_step_refl]. Qed.

Lemma store_evolves_set_row_iterator s it :
  store_evolves s (set_row_iterator it s).
Proof. split; [reflexivity|apply db_step_refl]. Qed.

Lemma store_evolves_connect :
  keeps store_evolves (DatabaseStream.invoke CallConnect _db_connect).
Proof. apply store_evolves_invoke. intros s. apply db_step_refl. Qed.

Lemma store_evolves_close :
  keeps store_evolves (DatabaseStream.invoke CallClose _db_close).
Proof. apply store_evolves_invoke. intros s. apply db_step_refl. Qed.

Lemma store_evolves_flush :
  keeps store_evolves (DatabaseStream.invoke CallFlush _flush).
Proof.
  apply store_evolves_invoke. intros s. simpl. unfold Sqlite.commit.
  destruct (negb (_closed s)); [|apply db_step_refl].
  destruct (negb (_conn (backend s))); apply db_step_refl.
Qed.

Lemma store_evolves_fetch :
  keeps store_evolves (DatabaseStream.invoke CallFetch _fetch_unconsumed).
Proof.
  apply store_evolves_invoke. intros s. simpl.
  apply db_step_execute. intros t. apply table_grows_refl.
Qed.

Lemma store_evolves_write text :
  keeps store_evolves
        (DatabaseStream.invoke (CallWrite text)
           (fun self => _write_record self text)).
Proof.
  apply store_evolves_invoke. intros s. simpl.
  rewrite then_commit_database.
  apply db_step_execute. intros t. apply table_grows_insert.
Qed.

Lemma store_evolves_mark rid :
  keeps store_evolves
        (DatabaseStream.invoke (CallMark rid)
           (fun self => _mark_consumed self rid)).
Proof.
  apply store_evolves_invoke. intros s. simpl.
  rewrite then_commit_database.
  apply db_step_execute. intros t. apply table_grows_update.
Qed.

Lemma store_evolves_call_all (ms : list Method) (self : Stream Connection) :
  store_evolves self (snd (call_all ms self)).
Proof.
  apply (keeps_call_all store_evolves);
    first [ exact store_evolves_refl | exact store_evolves_trans
          | exact store_evolves_set_closed
          | exact store_evolves_set_row_iterator
          | exact store_evolves_close | exact store_evolves_flush
          | exact store_evolves_write | exact store_evolves_mark ].
Qed.

Lemma store_evolves_init env file path tn mode :
  store_evolves
    (mkStream tn mode (now env) (gethostname env) (getpid env) false None
              (mkConnection path file false false) [])
    (snd (Sqlite.__init__ env file path tn mode)).
Proof.
  unfold Sqlite.__init__.
  apply (keeps_init store_evolves);
    first [ exact store_evolves_refl | exact store_evolves_trans
          | exact store_evolves_set_row_iterator
          | exact store_evolves_connect | exact store_evolves_fetch ].
Qed.

(** X14.  What a SQLite stream never does to the store, whatever its
    mode and whatever sequence of methods is called on it, construction
    included, when its table name is an identifier.  Tables whose name
    differs from it, in whatever case the letters are written, are
    untouched.  No table is created or removed, and when the name
    resolves to no table the database stays as it is.  No record of any
    table is deleted or moved, no identifier or content is changed; a
    record is untouched or carries the stream's own stamp; the records
    added follow the old ones and carry that stamp; identifiers that were
    unique stay unique. *)
Theorem store_is_only_stamped_and_appended env file path tn mode
        (ms : list Method) :
  Sqlite.plain_name tn = true ->
  let born := snd (Sqlite.__init__ env file path tn mode) in
  let after := snd (call_all ms born) in
  (forall name, Sqlite.fold_case name <> Sqlite.fold_case tn ->
                database (backend after) !! name = file !! name) /\
  (forall name,
      option_Forall2 (table_grows (now env, gethostname env, getpid env))
                     (file !! name) (database (backend after) !! name)) /\
  (Sqlite.resolve file tn = None -> database (backend after) = file).
Proof.
  intros _ born after.
  pose proof (store_evolves_init env file path tn mode) as H0.
  pose proof (store_evolves_call_all ms born) as H1.
  pose proof (store_evolves_trans _ _ _ H0 H1) as [_ Hstep].
  exact Hstep.
Qed.

Lemma store_is_only_stamped_and_appended_witness :
  let after :=
    snd (call_all [MReadOp (OpReadline (-1)); MWrite "text"; MClose]
           (snd (Sqlite.__init__ env0 stdin_two "test.db" "STDIN_STREAM"
                   "r"))) in
  (rows <$> database (backend after) !! "stdin_stream")
  = Some [ mkTableRow 1 "Input1" (Some 1700000000) (Some "host") (Some 4242);
           mkTableRow 2 "Input2" None None None ] /\
  option_Forall2 (table_grows (now env0, gethostname env0, getpid env0))
                 (stdin_two !! "stdin_stream")
                 (database (backend after) !! "stdin_stream").
Proof.
  destruct (store_is_only_stamped_and_appended env0 stdin_two "test.db"
              "STDIN_STREAM" "r"
              [MReadOp (OpReadline (-1)); MWrite "text"; MClose]
              ltac:(reflexivity)) as (_ & Hgrow & _).
  split; [vm_compute; reflexivity|apply Hgrow].
Defined.

(** ** Construction, failure and the end of life *)

(** X17.  Constructing a SQLite stream never changes the database,
    whatever the mode, whether the table exists or not, and whether the
    constructor returns or raises: a reader's constructor only selects. *)
Theorem construction_changes_no_data env file path tn mode :
  database (backend (snd (Sqlite.__init__ env file path tn mode))) = file.
Proof.
  unfold Sqlite.__init__, DatabaseStream.__init__, DatabaseStream.invoke,
    DatabaseStream.readable, bind, get_self, update, ret. simpl.
  destruct (String.eqb mode "r"); simpl; [|reflexivity].
  unfold Sqlite.execute. simpl.
  destruct (Sqlite.resolve file tn) as [[name t]|] eqn:Ht; simpl;
    [|reflexivity].
  apply insert_id. apply resolve_Some in Ht as [Ht _]. exact Ht.
Qed.

(** X16.  A closed stream is inert, for any subclass: whatever sequence
    of methods is called on it, the object stays exactly as it was, so no
    hook is called and the store is not reached. *)
Theorem closed_stream_is_inert {B} {H : Hooks B} (self : Stream B)
        (ms : list Method) :
  _closed self = true ->
  snd (call_all ms self) = self /\
  calls (snd (call_all ms self)) = calls self /\
  backend (snd (call_all ms self)) = backend self.
Proof.
  intros Hc. rewrite (call_all_closed ms self Hc). repeat split.
Qed.

Lemma closed_stream_is_inert_witness :
  let self := snd (DatabaseStream.close
                     (opened env0 stdin_two "stdin_stream" "r")) in
  snd (call_all [MReadOp (OpRead (-1)); MWrite "text"; MFlush; MClose;
                 MReadOp OpIter; MReadOp OpNext; MEnter; MExit] self)
  = self.
Proof.
  apply (closed_stream_is_inert
           (snd (DatabaseStream.close
                   (opened env0 stdin_two "stdin_stream" "r")))).
  reflexivity.
Defined.

(** X18.  A row is taken off the cursor before it is marked.  When the
    mark fails (here: the table name, an identifier, resolves to no table
    of the database any more, in whatever case its letters are written),
    [read], [readline], [readlines] and [__next__] raise the store's
    operational error, the content of the row is not returned, and the
    row is off the cursor all the same: asking again does not deliver
    it. *)
Theorem failed_mark_loses_the_row (self : Stream Connection) row it' op :
  _closed self = false -> _mode self = "r" ->
  _row_iterator self = Some (row :: it') ->
  _conn (backend self) = true -> _cursor (backend self) = true ->
  Sqlite.plain_name (_table_name self) = true ->
  Sqlite.resolve (database (backend self)) (_table_name self) = None ->
  op <> OpIter ->
  (exists msg, fst (run_op op self) = Raise (OperationalError msg)) /\
  _row_iterator (snd (run_op op self)) = Some it' /\
  database (backend (snd (run_op op self))) = database (backend self).
Proof.
  intros Hc Hm Hit Hco Hcu _ Ht Hop.
  assert (Hr : DatabaseStream.readable self = true)
    by (rewrite (readable_open self Hc), Hm; reflexivity).
  assert (Hmark : DatabaseStream.invoke (CallMark (id row))
                    (fun self => _mark_consumed self (id row))
                    (set_row_iterator it' self)
                  = (Raise (OperationalError
                              ("no such table: " ++ _table_name self)),
                     after_call (CallMark (id row)) (backend self)
                                (set_row_iterator it' self))).
  { unfold DatabaseStream.invoke. simpl.
    unfold Sqlite.execute. simpl.
    rewrite Hco, Hcu, Ht. reflexivity. }
  simpl in Hmark.
  destruct op as [size|limit|hint| |]; [| | |congruence|];
    unfold_methods; rewrite Hc; simpl; rewrite Hr; simpl; rewrite Hit; simpl;
    try (unfold bind, update; simpl); rewrite Hmark;
    (split; [eexists; reflexivity|split; reflexivity]).
Qed.

Lemma failed_mark_loses_the_row_witness :
  let self := sees ∅ (opened env0 stdin_two "stdin_stream" "r") in
  fst (run_op (OpRead (-1)) self)
  = Raise (OperationalError "no such table: stdin_stream") /\
  _row_iterator (snd (run_op (OpRead (-1)) self))
  = Some [ {| id := 2; content := "Input2" |} ].
Proof.
  destruct (failed_mark_loses_the_row
              (sees ∅ (opened env0 stdin_two "stdin_stream" "r"))
              {| id := 1; content := "Input1" |}
              [ {| id := 2; content := "Input2" |} ] (OpRead (-1))
              ltac:(reflexivity) ltac:(reflexivity) ltac:(reflexivity)
              ltac:(reflexivity) ltac:(reflexivity) ltac:(reflexivity)
              ltac:(reflexivity) ltac:(discriminate)) as (_ & Hit & _).
  split; [vm_compute; reflexivity|exact Hit].
Defined.

(** X19.  When the identifiers of the table are used up (the largest
    identifier ever given is the largest there is), [write] on an open
    writer raises the store's operational error: the hook was called,
    the table holds what it held, and the stream stays open. *)
Theorem write_without_identifier_left_raises env self t text :
  writer_inv env self t ->
  Sqlite.max_rowid < Sqlite.next_id t ->
  (exists msg,
      fst (DatabaseStream.write text self) = Raise (OperationalError msg)) /\
  writer_inv env (snd (DatabaseStream.write text self)) t /\
  calls (snd (DatabaseStream.write text self))
  = calls self ++ [CallWrite text].
Proof.
  unfold writer_inv, Sqlite.table_of.
  intros (Hc & Hm & Hts & Hh & Hp & Hco & Hcu & Ht) Hfull.
  apply Z.ltb_lt in Hfull.
  unfold_methods. rewrite Hc. simpl.
  rewrite (writable_open self Hc), Hm. simpl.
  unfold DatabaseStream.invoke. simpl.
  unfold Sqlite.execute. rewrite Hco, Hcu. simpl.
  rewrite (resolve_exact _ _ _ Ht). unfold Sqlite.insert_into.
  rewrite Hfull. simpl.
  split; [eexists; reflexivity|]. split; [|reflexivity].
  repeat (split; [assumption|]). assumption.
Qed.

Lemma write_without_identifier_left_raises_witness :
  let full := {[ "stdout_stream" := mkTable [] Sqlite.max_rowid ]} in
  let self := opened env0 full "stdout_stream" "w" in
  fst (DatabaseStream.write "Line1 stdout" self)
  = Raise (OperationalError "database or disk is full") /\
  Sqlite.table_of (snd (DatabaseStream.write "Line1 stdout" self))
  = Some (mkTable [] Sqlite.max_rowid).
Proof.
  assert (Hinv : writer_inv env0
                   (opened env0
                      {[ "stdout_stream" := mkTable [] Sqlite.max_rowid ]}
                      "stdout_stream" "w")
                   (mkTable [] Sqlite.max_rowid))
    by (repeat split; reflexivity).
  destruct (write_without_identifier_left_raises env0 _ _ "Line1 stdout"
              Hinv ltac:(reflexivity)) as (_ & Hinv' & _).
  split; [vm_compute; reflexivity|apply Hinv'].
Defined.
